(** * react-storex: the cache / fetch coordination core

    A shallow embedding of the TypeScript store ([retryFetch], class [Store])
    and of the two local mutation helpers of the [useStore] hook
    ([deleteItem], [editItem]), followed by the properties of the
    specification that concern them.

    Modelling conventions.
    - JavaScript values are the inductive [Value]; numbers are integers
      ([Z]): fractional numbers, [NaN] and the infinities are outside the
      model, so [Math.pow(2, k)] is the exact power [2 ^ k].
    - Objects used as dictionaries ([state], [apiHandlers]) and the two
      [Map]s ([cache], [cacheExpiration]) are [gmap string _]; properties
      inherited from [Object.prototype] are not modelled.
    - The outside world the fetch handlers talk to is an abstract type [W];
      a handler is a function of its argument and of the world, returning
      an outcome (resolved value or rejection) and the next world.
    - A listener is the identity of a callback; what the callback does
      when it is called with a state -- return, or throw -- is given by the
      [callbacks] of the configuration.  Handlers and listener callbacks do
      not reach back into the store.
    - An [async] function is run to completion: the model is sequential,
      [await] is ordinary sequencing.
    - [Date.now()] is an argument ([now]) of [fetchData].  Of the default
      parameters only [payload = null] is modelled; the others ([method],
      [keepCache], [cacheDuration], [retries], [delay]) are always passed,
      [fetchData] passing 3 and 1000 to [retryFetch] as the source's
      defaults do.
    - Everything observable is recorded in a trace of [Event]s: handler
      invocations, back-off sleeps, listener notifications, console logs. *)

From Stdlib Require Import ZArith String List Lia DecimalString.
From Equations Require Import Equations.
From stdpp Require Import base option gmap strings list.

Local Open Scope string_scope.
Local Open Scope list_scope.
Local Open Scope Z_scope.

(** ** JavaScript values *)

Module JS.

#[warnings="-register-all"]
Inductive Value : Type :=
| VUndefined
| VNull
| VBool (b : bool)
| VNum (n : Z)
| VStr (s : string)
| VArr (items : list Value)
| VObj (fields : list (string * Value)).

(** [if (v)]: the falsy values are [undefined], [null], [false], [0] and
    the empty string; every array and every object is truthy. *)
Definition truthy (v : Value) : bool :=
  match v with
  | VUndefined | VNull => false
  | VBool b => b
  | VNum n => negb (Z.eqb n 0)
  | VStr s => negb (String.eqb s "")
  | VArr _ | VObj _ => true
  end.

(** [Array.isArray(v)] *)
Definition isArray (v : Value) : bool :=
  match v with VArr _ => true | _ => false end.

(** [String(n)] for an integer, in plain decimal notation. *)
Definition num_to_string (n : Z) : string :=
  NilZero.string_of_int (Z.to_int n).

(** [String(v)]: an array is joined with commas, its [null] and
    [undefined] elements printing as the empty string. *)
Fixpoint to_string (v : Value) : string :=
  match v with
  | VUndefined => "undefined"
  | VNull => "null"
  | VBool true => "true"
  | VBool false => "false"
  | VNum n => num_to_string n
  | VStr s => s
  | VArr items =>
      (fix join (l : list Value) : string :=
         match l with
         | [] => ""
         | x :: rest =>
             let sx := match x with
                       | VUndefined | VNull => ""
                       | _ => to_string x
                       end in
             match rest with
             | [] => sx
             | _ :: _ => sx +:+ "," +:+ join rest
             end
         end) items
  | VObj _ => "[object Object]"
  end.

(** Own properties of a record, kept in insertion order. *)
Fixpoint assoc_get (k : string) (fields : list (string * Value)) : option Value :=
  match fields with
  | [] => None
  | (k', v) :: rest => if String.eqb k k' then Some v else assoc_get k rest
  end.

Fixpoint assoc_set (k : string) (v : Value) (fields : list (string * Value))
  : list (string * Value) :=
  match fields with
  | [] => [(k, v)]
  | (k', v') :: rest =>
      if String.eqb k k' then (k, v) :: rest else (k', v') :: assoc_set k v rest
  end.

(** Element [i] of an array-like, addressed by the decimal spelling of [i]. *)
Fixpoint index_get {A} (k : string) (i : Z) (l : list A) : option A :=
  match l with
  | [] => None
  | x :: rest => if String.eqb k (num_to_string i) then Some x else index_get k (i + 1) rest
  end.

Fixpoint chars (s : string) : list Value :=
  match s with
  | EmptyString => []
  | String a rest => VStr (String a EmptyString) :: chars rest
  end.

(** [v[k]]: [None] stands for the [TypeError] raised on [null] and
    [undefined]; a missing property reads as [undefined]. *)
Definition get_prop (v : Value) (k : string) : option Value :=
  match v with
  | VUndefined | VNull => None
  | VObj fields => Some (default VUndefined (assoc_get k fields))
  | VArr items =>
      if String.eqb k "length" then Some (VNum (Z.of_nat (length items)))
      else Some (default VUndefined (index_get k 0 items))
  | VStr s =>
      if String.eqb k "length" then Some (VNum (Z.of_nat (String.length s)))
      else Some (default VUndefined (index_get k 0 (chars s)))
  | VBool _ | VNum _ => Some VUndefined
  end.

Fixpoint indexed (i : Z) (l : list Value) : list (string * Value) :=
  match l with
  | [] => []
  | x :: rest => (num_to_string i, x) :: indexed (i + 1) rest
  end.

(** The own enumerable properties that [...v] copies. *)
Definition own_props (v : Value) : list (string * Value) :=
  match v with
  | VObj fields => fields
  | VArr items => indexed 0 items
  | VStr s => indexed 0 (chars s)
  | _ => []
  end.

Definition assign (target props : list (string * Value)) : list (string * Value) :=
  fold_left (fun acc kv => assoc_set kv.1 kv.2 acc) props target.

(** [{ ...a, ...b }] *)
Definition spread2 (a b : Value) : Value :=
  VObj (assign (assign [] (own_props a)) (own_props b)).


End JS.
Import JS.

(** ** Exceptions, outcomes, events *)

Inductive Exn : Type :=
| Rejected (reason : Value)      (* a handler's promise rejected *)
| TypeError (msg : string)       (* raised by the language itself *)
| JsError (msg : string).        (* [new Error(msg)] *)

Inductive Outcome (A : Type) : Type :=
| Returned (a : A)
| Thrown (e : Exn).
Arguments Returned {A} a.
Arguments Thrown {A} e.

Inductive Method := GET | POST | PUT | DELETE.

Definition Listener := nat.

Inductive Event : Type :=
| EvCall (key : string) (arg : Value) (res : Outcome Value)
| EvSleep (ms : Z)
| EvNotify (l : Listener) (st : gmap string Value)
| EvLog (msg : string) (detail : option Exn).

Section Core.

(** The environment of the fetch handlers (servers, call counters). *)
Context {W : Type}.

Record APIHandler := mkAPIHandler {
  fetchFunction : Value -> W -> Outcome Value * W;
  cacheDuration : Z
}.

Record Store := mkStore {
  state : gmap string Value;
  listeners : list Listener;
  cache : gmap string Value;
  apiHandlers : gmap string APIHandler;
  cacheExpiration : gmap string Z
}.

(** The store, the world of the handlers, and the behaviour of the
    listener callbacks: [callbacks c l st] is [Some e] when the callback
    [l], called with the state [st], throws [e]. *)
Record Config := mkConfig {
  store : Store;
  world : W;
  callbacks : Listener -> gmap string Value -> option Exn
}.

(** A computation reads and updates the configuration, may throw, and
    emits events. *)
Definition M (A : Type) : Type := Config -> Outcome A * Config * list Event.

Definition ret {A} (a : A) : M A := fun c => (Returned a, c, []).

Definition bind {A B} (m : M A) (k : A -> M B) : M B :=
  fun c =>
    match m c with
    | (Returned a, c1, tr1) =>
        let '(r, c2, tr2) := k a c1 in (r, c2, tr1 ++ tr2)
    | (Thrown e, c1, tr1) => (Thrown e, c1, tr1)
    end.

Definition throw {A} (e : Exn) : M A := fun c => (Thrown e, c, []).

(** [try { m } catch (error) { h error }] *)
Definition try_catch {A} (m : M A) (h : Exn -> M A) : M A :=
  fun c =>
    match m c with
    | (Returned a, c1, tr1) => (Returned a, c1, tr1)
    | (Thrown e, c1, tr1) =>
        let '(r, c2, tr2) := h e c1 in (r, c2, tr1 ++ tr2)
    end.

Definition emit (e : Event) : M unit := fun c => (Returned tt, c, [e]).

Definition get_store : M Store := fun c => (Returned (store c), c, []).

Definition put_store (s : Store) : M unit :=
  fun c => (Returned tt, mkConfig s (world c) (callbacks c), []).

End Core.

Arguments APIHandler W : clear implicits.
Arguments Store W : clear implicits.
Arguments Config W : clear implicits.
Arguments M W A : clear implicits.

Notation "x ← m ; k" := (bind m (fun x => k))
  (at level 20, m at level 100, k at level 200, only parsing, right associativity).
Notation "m ;; k" := (bind m (fun _ => k))
  (at level 100, k at level 200, only parsing, right associativity).

(** ** The retry wrapper *)

Section Retry.

Context {W : Type}.

(** [new Promise(resolve => setTimeout(resolve, ms))] *)
Definition sleep (ms : Z) : M W unit := emit (EvSleep ms).

(** The body of [retryFetch] from the point where the loop condition is
    tested, [attempts] being the current value of the counter.  The
    counter only grows towards [retries], which bounds the iterations. *)
Equations? retry_loop (fetchFunction : M W Value) (retries delay attempts : Z)
  : M W Value by wf (Z.to_nat (retries - attempts)) lt :=
retry_loop fetchFunction retries delay attempts with Z_lt_dec attempts retries := {
  | left _ =>
      try_catch fetchFunction (fun error =>
        let attempts' := attempts + 1 in
        if Z.eqb attempts' retries then throw error
        else (sleep (delay * 2 ^ attempts') ;;
              retry_loop fetchFunction retries delay attempts'))
  | right _ => throw (JsError "Unexpected error in retryFetch") }.
Proof. lia. Qed.

Definition retryFetch (fetchFunction : M W Value) (retries delay : Z) : M W Value :=
  retry_loop fetchFunction retries delay 0.

End Retry.

(** ** The store *)

Section StoreOps.

Context {W : Type}.

Definition with_state (st : gmap string Value) (s : Store W) : Store W :=
  mkStore st (listeners s) (cache s) (apiHandlers s) (cacheExpiration s).

Definition with_listeners (ls : list Listener) (s : Store W) : Store W :=
  mkStore (state s) ls (cache s) (apiHandlers s) (cacheExpiration s).

Definition with_cache (ca : gmap string Value) (s : Store W) : Store W :=
  mkStore (state s) (listeners s) ca (apiHandlers s) (cacheExpiration s).

Definition with_apiHandlers (hs : gmap string (APIHandler W)) (s : Store W) : Store W :=
  mkStore (state s) (listeners s) (cache s) hs (cacheExpiration s).

Definition with_cacheExpiration (ce : gmap string Z) (s : Store W) : Store W :=
  mkStore (state s) (listeners s) (cache s) (apiHandlers s) ce.

(** [new Store({})] *)
Definition new_store : Store W := mkStore ∅ [] ∅ ∅ ∅.

Definition getState : M W (gmap string Value) :=
  s ← get_store; ret (state s).

(** [listeners.forEach((callback) => callback(state))]: the callbacks are
    called in insertion order; the first one that throws ends the loop,
    and its exception is the loop's. *)
Fixpoint notify_each (cb : Listener -> gmap string Value -> option Exn)
    (st : gmap string Value) (ls : list Listener) : Outcome unit * list Event :=
  match ls with
  | [] => (Returned tt, [])
  | l :: rest =>
      match cb l st with
      | Some e => (Thrown e, [EvNotify l st])
      | None => let '(r, tr) := notify_each cb st rest in (r, EvNotify l st :: tr)
      end
  end.

Definition notifyListeners : M W unit :=
  fun c =>
    let '(r, tr) := notify_each (callbacks c) (state (store c)) (listeners (store c)) in
    (r, c, tr).

(** [{ ...this.state, ...newState }]: the keys of [newState] win. *)
Definition setState (newState : gmap string Value) : M W unit :=
  s ← get_store;
  put_store (with_state (newState ∪ state s) s) ;;
  notifyListeners.

(** [if (key)] fails for a missing key and for the empty string. *)
Definition clearCache (key : option string) : M W unit :=
  s ← get_store;
  match key with
  | Some k =>
      if negb (String.eqb k "") then
        put_store (with_cacheExpiration (delete k (cacheExpiration s))
                     (with_cache (delete k (cache s)) s))
      else put_store (with_cacheExpiration ∅ (with_cache ∅ s))
  | None => put_store (with_cacheExpiration ∅ (with_cache ∅ s))
  end.

(** [listeners] is a [Set]: adding a member again changes nothing. *)
Definition subscribe (callback : Listener) : M W unit :=
  s ← get_store;
  if bool_decide (callback ∈ listeners s) then ret tt
  else put_store (with_listeners (listeners s ++ [callback]) s).

(** The function [subscribe] returns. *)
Definition unsubscribe (callback : Listener) : M W bool :=
  s ← get_store;
  put_store (with_listeners (filter (fun l => l ≠ callback) (listeners s)) s) ;;
  ret (bool_decide (callback ∈ listeners s)).

(** [fetchFunction] is [None] when the argument is not callable. *)
Definition registerAPI (key : string)
    (fetchFunction : option (Value -> W -> Outcome Value * W))
    (cacheDuration : Z) : M W unit :=
  match fetchFunction with
  | None => emit (EvLog ("Invalid fetch function for key: " +:+ key) None)
  | Some f =>
      s ← get_store;
      put_store (with_apiHandlers (<[key := mkAPIHandler f cacheDuration]> (apiHandlers s)) s)
  end.

Definition createStore (initialState : gmap string Value) : M W unit :=
  s ← get_store; put_store (with_state initialState s).

(** [x || 0] on an optional number *)
Definition or_zero (x : option Z) : Z :=
  match x with
  | Some d => if Z.eqb d 0 then 0 else d
  | None => 0
  end.

(** The test that guards the early return of [fetchData]:
    [cache.has(key) && cacheExpirationTime !== undefined &&
     now - cacheExpirationTime <= (apiHandlers[key]?.cacheDuration || 0)],
    with the value [cache.get(key)] it then returns. *)
Definition cache_hit (s : Store W) (key : string) (now : Z) : option Value :=
  match cache s !! key, cacheExpiration s !! key with
  | Some v, Some cacheExpirationTime =>
      if now - cacheExpirationTime <=? or_zero (cacheDuration <$> apiHandlers s !! key)
      then Some v else None
  | _, _ => None
  end.

(** [() => fetchFunction(arg)], the thunk handed to [retryFetch]. *)
Definition call_handler (key : string) (h : APIHandler W) (arg : Value) : M W Value :=
  fun c =>
    let '(r, w') := fetchFunction h arg (world c) in
    (r, mkConfig (store c) w' (callbacks c), [EvCall key arg r]).

Definition is_write (method : Method) : bool :=
  match method with
  | POST | PUT | DELETE => true
  | GET => false
  end.

(** The early return is tried for [GET] only. *)
Definition served_from_cache (s : Store W) (key : string) (method : Method)
    (now : Z) : option Value :=
  match method with
  | GET => cache_hit s key now
  | _ => None
  end.

(** What the handler is called with: the payload for a write (a missing
    [payload] defaults to [null]), the URL path for a read. *)
Definition handler_argument (method : Method) (payload urlPath : Value) : Value :=
  let payload := match payload with VUndefined => VNull | _ => payload end in
  if is_write method then payload else urlPath.

(** [now] is the value [Date.now()] returned on entry. *)
Definition fetchData (now : Z) (key : string) (method : Method)
    (payload urlPath : Value) (keepCache : bool) : M W Value :=
  s ← get_store;
  match served_from_cache s key method now with
  | Some cached => ret cached
  | None =>
      match apiHandlers s !! key with
      | None =>
          emit (EvLog ("No API registered for key: " +:+ key) None) ;;
          ret VNull
      | Some h =>
          try_catch
            (data ← retryFetch
                      (call_handler key h (handler_argument method payload urlPath))
                      3 1000;
             (if truthy data then
                (if keepCache then
                   s1 ← get_store;
                   put_store (with_cacheExpiration (<[key := now]> (cacheExpiration s1))
                                (with_cache (<[key := data]> (cache s1)) s1))
                 else ret tt) ;;
                setState {[key := data]}
              else ret tt) ;;
             ret data)
            (fun error =>
               emit (EvLog "API call error:" (Some error)) ;;
               ret VNull)
      end
  end.

(** The store a fetch leaves behind once [data] has been accepted. *)
Definition committed (now : Z) (key : string) (data : Value) (keepCache : bool)
    (s : Store W) : Store W :=
  let s1 := if keepCache
            then with_cacheExpiration (<[key := now]> (cacheExpiration s))
                   (with_cache (<[key := data]> (cache s)) s)
            else s in
  with_state ({[key := data]} ∪ state s1) s1.


(** The broadcast of the state of [s] to the listeners of [s], with the
    callbacks of [c]. *)
Definition broadcast (c : Config W) (s : Store W) : Outcome unit * list Event :=
  notify_each (callbacks c) (state s) (listeners s).

(** No listener of the configuration throws when called with [st]. *)
Definition listeners_accept (c : Config W) (st : gmap string Value) : Prop :=
  forall l, l ∈ listeners (store c) -> callbacks c l st = None.

(** Called with [st], the listeners [before] return and the next one, [l],
    throws [e]; [after] are the listeners behind it. *)
Definition listener_throws (c : Config W) (st : gmap string Value)
    (before : list Listener) (l : Listener) (after : list Listener) (e : Exn) : Prop :=
  listeners (store c) = before ++ l :: after /\
  (forall l', l' ∈ before -> callbacks c l' st = None) /\
  callbacks c l st = Some e.

End StoreOps.

(** ** The local mutation helpers of the [useStore] hook

    [key] and [idKey] are the hook's parameters, captured by the two
    closures. *)

Section Hook.

Context {W : Type}.

(** [Array.prototype.map] / [filter] with a callback that may throw. *)
Fixpoint mapM {A B} (f : A -> M W B) (l : list A) : M W (list B) :=
  match l with
  | [] => ret []
  | x :: rest => y ← f x; ys ← mapM f rest; ret (y :: ys)
  end.

Fixpoint filterM {A} (f : A -> M W bool) (l : list A) : M W (list A) :=
  match l with
  | [] => ret []
  | x :: rest =>
      keep ← f x; ys ← filterM f rest; ret (if keep : bool then x :: ys else ys)
  end.

(** [String(item[idKey]) === String(id)]; reading a property of [null] or
    [undefined] raises a [TypeError] (the text of its message is the
    engine's). *)
Definition id_matches (idKey : string) (id item : Value) : M W bool :=
  match get_prop item idKey with
  | None => throw (TypeError "Cannot read properties of null or undefined")
  | Some field => ret (String.eqb (to_string field) (to_string id))
  end.

Definition deleteItem (key idKey : string) (deleteItemId : Value) : M W unit :=
  if negb (truthy deleteItemId) then ret tt
  else
    st ← getState;
    let currentData := default VUndefined (st !! key) in
    updatedData ←
      match currentData with
      | VArr items =>
          kept ← filterM (fun item => same ← id_matches idKey deleteItemId item;
                                      ret (negb same)) items;
          ret (VArr kept)
      | _ => ret (VArr [])
      end;
    setState {[key := updatedData]}.

Record EditResult := mkEditResult { status : bool; message : string }.

Definition exn_to_string (e : Exn) : string :=
  match e with
  | Rejected reason => to_string reason
  | TypeError msg => "TypeError: " +:+ msg
  | JsError msg => "Error: " +:+ msg
  end.

Definition editItem (key idKey : string) (editItemId updatedFields : Value)
  : M W EditResult :=
  try_catch
    (s ← get_store;
     let current := default VUndefined (state s !! key) in
     if negb (truthy current) || negb (isArray current) then
       emit (EvLog ("No valid array found in store for key: " +:+ key) None) ;;
       ret (mkEditResult false ("No valid array found for key: " +:+ key))
     else
       updatedItems ←
         match current with
         | VArr items =>
             mapM (fun item =>
                     same ← id_matches idKey editItemId item;
                     ret (if same : bool then spread2 item updatedFields else item))
                  items
         | _ => throw (TypeError "store.state[key].map is not a function")
         end;
       setState {[key := VArr updatedItems]} ;;
       s1 ← get_store;
       put_store (with_cache (<[key := VArr updatedItems]> (cache s1)) s1) ;;
       ret (mkEditResult true "Item edited successfully"))
    (fun error =>
       ret (mkEditResult false ("Error editing item: " +:+ exn_to_string error))).

(** The callback [editItem] maps over the sequence, as a function: what it
    returns on an element whose property can be read. *)
Definition edit_one (idKey : string) (editItemId updatedFields item : Value) : Value :=
  match get_prop item idKey with
  | Some field =>
      if String.eqb (to_string field) (to_string editItemId)
      then spread2 item updatedFields else item
  | None => item
  end.


End Hook.

(** ** Histories of store operations *)

Section History.

Context {W : Type}.

Inductive Op : Type :=
| OpCreateStore (initialState : gmap string Value)
| OpRegisterAPI (key : string)
    (fetchFunction : option (Value -> W -> Outcome Value * W)) (cacheDuration : Z)
| OpClearCache (key : option string)
| OpSubscribe (callback : Listener)
| OpUnsubscribe (callback : Listener)
| OpSetState (newState : gmap string Value)
| OpFetchData (now : Z) (key : string) (method : Method)
    (payload urlPath : Value) (keepCache : bool)
| OpDeleteItem (key idKey : string) (deleteItemId : Value)
| OpEditItem (key idKey : string) (editItemId updatedFields : Value).

Inductive Answer : Type :=
| ADone
| AFlag (b : bool)
| AValue (v : Value)
| AEdit (r : EditResult).

Definition exec_op (op : Op) : M W Answer :=
  match op with
  | OpCreateStore initialState => createStore initialState ;; ret ADone
  | OpRegisterAPI key f d => registerAPI key f d ;; ret ADone
  | OpClearCache key => clearCache key ;; ret ADone
  | OpSubscribe l => subscribe l ;; ret ADone
  | OpUnsubscribe l => b ← unsubscribe l; ret (AFlag b)
  | OpSetState newState => setState newState ;; ret ADone
  | OpFetchData now key method payload urlPath keepCache =>
      v ← fetchData now key method payload urlPath keepCache; ret (AValue v)
  | OpDeleteItem key idKey id => deleteItem key idKey id ;; ret ADone
  | OpEditItem key idKey id fields =>
      r ← editItem key idKey id fields; ret (AEdit r)
  end.

(** One entry of the history: the operation, what it answered and the
    events it produced. *)
Record Step := mkStep {
  step_op : Op;
  step_answer : Outcome Answer;
  step_events : list Event
}.

(** The configurations the library's operations can bring about from a
    fresh store, with the history that led there (latest step first).
    The world may also change on its own between two operations. *)
Inductive reachable : Config W -> list Step -> Prop :=
| reach_new w cb : reachable (mkConfig new_store w cb) []
| reach_world c hist w :
    reachable c hist -> reachable (mkConfig (store c) w (callbacks c)) hist
| reach_op c hist op a c' tr :
    reachable c hist ->
    exec_op op c = (a, c', tr) ->
    reachable c' (mkStep op a tr :: hist).

(** The handler of [key] resolved with a truthy value. *)
Definition resolved_truthy (key : string) (e : Event) : bool :=
  match e with
  | EvCall k _ (Returned data) => String.eqb k key && truthy data
  | _ => false
  end.

(** A step that completed a successful fetch of [key] with caching
    enabled. *)
Definition cached_fetch (key : string) (st : Step) : bool :=
  match step_op st with
  | OpFetchData _ k _ _ _ true =>
      String.eqb k key && existsb (resolved_truthy key) (step_events st)
  | _ => false
  end.

(** A step in which [editItem] rewrote the sequence held at [key]. *)
Definition local_edit (key : string) (st : Step) : bool :=
  match step_op st, step_answer st with
  | OpEditItem k _ _ _, Returned (AEdit r) => String.eqb k key && status r
  | _, _ => false
  end.

(** Running a list of operations in order, recording the history. *)
Fixpoint run_ops (ops : list Op) (c : Config W) (hist : list Step)
  : Config W * list Step :=
  match ops with
  | [] => (c, hist)
  | op :: rest =>
      let '(a, c', tr) := exec_op op c in
      run_ops rest c' (mkStep op a tr :: hist)
  end.

End History.

Arguments Op W : clear implicits.
Arguments Step W : clear implicits.

(** ** Reading a trace *)

Definition is_call (e : Event) : bool :=
  match e with EvCall _ _ _ => true | _ => false end.

Definition is_notify (e : Event) : bool :=
  match e with EvNotify _ _ => true | _ => false end.

(** How many times a handler was invoked. *)
Definition invocations (tr : list Event) : nat :=
  length (List.filter is_call tr).

(** For each invocation in turn, the sleep that immediately precedes it,
    if any; [prev] is the sleep seen just before [tr]. *)
Fixpoint waits (prev : option Z) (tr : list Event) : list (option Z) :=
  match tr with
  | [] => []
  | EvCall _ _ _ :: rest => prev :: waits None rest
  | EvSleep ms :: rest => waits (Some ms) rest
  | _ :: rest => waits None rest
  end.

(** The sleep immediately before attempt number [k], attempts counted
    from 1. *)
Definition delay_before (k : nat) (tr : list Event) : option Z :=
  match k with
  | O => None
  | S j => mjoin (waits None tr !! j)
  end.

(** The outcomes of [n] successive calls of a handler from world [w]. *)
Fixpoint call_outcomes {W} (f : Value -> W -> Outcome Value * W) (arg : Value)
    (w : W) (n : nat) : list (Outcome Value) :=
  match n with
  | O => []
  | S m => let '(r, w') := f arg w in r :: call_outcomes f arg w' m
  end.

(** ** A small scenario used to exercise the model

    The world is the number of requests the server has received. *)

Module Scenario.

Definition records : Value :=
  VArr [VObj [("id", VNum 5); ("name", VStr "A")];
        VObj [("id", VNum 7); ("name", VStr "B")]].

(** A server that is down. *)
Definition down (arg : Value) (w : nat) : Outcome Value * nat :=
  (Thrown (Rejected (VStr "down")), S w).

(** A server that answers from its third request on. *)
Definition flaky (arg : Value) (w : nat) : Outcome Value * nat :=
  match w with
  | O | S O => (Thrown (Rejected (VStr "down")), S w)
  | _ => (Returned records, S w)
  end.

(** A server that answers at once with a fixed value. *)
Definition constant (v : Value) (arg : Value) (w : nat) : Outcome Value * nat :=
  (Returned v, S w).

Definition fresh : Config nat := mkConfig new_store 0%nat (fun _ _ => None).

(** A store created with the two records under ["items"], one subscriber,
    no handler. *)
Definition local_session : list (Op nat) :=
  [OpCreateStore {["items" := records]}; OpSubscribe 1%nat].

Definition local : Config nat := (run_ops local_session fresh []).1.

Definition with_api (f : Value -> nat -> Outcome Value * nat) (L : Z) : Config nat :=
  (registerAPI "items" (Some f) L fresh).1.2.

(** A session in which ["items"] is created locally, given a handler and
    then edited locally; nothing is ever fetched. *)
Definition offline_session : list (Op nat) :=
  [OpCreateStore {["items" := records]};
   OpRegisterAPI "items" (Some flaky) 60000;
   OpSubscribe 1%nat;
   OpEditItem "items" "id" (VNum 5) (VObj [("name", VStr "X")])].

Definition offline : Config nat * list (Step nat) :=
  run_ops offline_session fresh [].

(** The same, with one subscriber listening. *)
Definition watched (f : Value -> nat -> Outcome Value * nat) (L : Z) : Config nat :=
  (subscribe 1%nat (with_api f L)).1.2.

End Scenario.

(** ** The rest of the [useStore] hook

    The three cells the hook keeps in React ([state], [isLoading],
    [isError]) belong to React: a call of one of their setters is recorded
    as an event, in call order, next to the events of the store. *)

Inductive UiEvent : Type :=
| UiStore (e : Event)
| UiSetState (v : Value)
| UiSetIsLoading (b : bool)
| UiSetIsError (error : option Exn).   (* [None] is [setIsError(null)] *)

(** The total time slept in a trace. *)
Fixpoint total_sleep (tr : list Event) : Z :=
  match tr with
  | [] => 0
  | EvSleep ms :: rest => ms + total_sleep rest
  | _ :: rest => total_sleep rest
  end.

(** [String(item[idKey]) === String(id)] as a value; [None] is the
    [TypeError] of reading a property of [null] or [undefined]. *)
Definition same_id (idKey : string) (id item : Value) : option bool :=
  (fun field => String.eqb (to_string field) (to_string id)) <$> get_prop item idKey.

(** [items.find((item) => String(item[idKey]) === String(itemId))]:
    the first element the callback accepts, [undefined] if there is none. *)
Fixpoint find_by_id (idKey : string) (itemId : Value) (items : list Value)
  : Outcome Value :=
  match items with
  | [] => Returned VUndefined
  | item :: rest =>
      match same_id idKey itemId item with
      | None => Thrown (TypeError "Cannot read properties of null or undefined")
      | Some true => Returned item
      | Some false => find_by_id idKey itemId rest
      end
  end.

(** [itemId ? data.find(...) || null : data].  Only an array has a
    [find] method. *)
Definition select_item (idKey : string) (itemId data : Value) : Outcome Value :=
  if truthy itemId then
    match data with
    | VArr items =>
        match find_by_id idKey itemId items with
        | Returned found => Returned (if truthy found then found else VNull)
        | Thrown e => Thrown e
        end
    | VUndefined | VNull =>
        Thrown (TypeError "Cannot read properties of null or undefined")
    | _ => Thrown (TypeError "data.find is not a function")
    end
  else Returned data.

(** [itemId ? data?.find(...) || null : data] *)
Definition select_item_opt (idKey : string) (itemId data : Value) : Outcome Value :=
  if truthy itemId then
    match data with
    | VUndefined | VNull => Returned VNull
    | _ => select_item idKey itemId data
    end
  else Returned data.

Section UseStore.

Context {W : Type}.

(** The parameters of the hook, captured by its closures. *)
Context (key : string) (method : Method) (payload itemId urlPath : Value)
        (keepCache : bool) (idKey : string).

Definition Ui (A : Type) : Type := Config W -> Outcome A * Config W * list UiEvent.

(** The initializer of the [state] cell. *)
Definition initialState (c : Config W) : Outcome Value :=
  select_item_opt idKey itemId (default VUndefined (state (store c) !! key)).

(** What follows a call of [store.fetchData] in [executeMutation],
    [refreshData] and [fetchDataIfNeeded]: [if (data) setState(...)]. *)
Definition show_data (data : Value) : Outcome (list UiEvent) :=
  if truthy data then
    match select_item idKey itemId data with
    | Returned shown => Returned [UiSetState shown]
    | Thrown e => Thrown e
    end
  else Returned [].

(** [state] is the value of the cell at the render that built the
    closure. *)
Definition executeMutation (state mutationPayload : Value) (now : Z) : Ui Value :=
  fun c =>
    let '(r, c1, tr) := fetchData now key method mutationPayload urlPath keepCache c in
    let started := [UiSetIsLoading true; UiSetIsError None] ++ (UiStore <$> tr) in
    let previousState := state in
    match r with
    | Returned data =>
        match show_data data with
        | Returned shown =>
            (Returned data, c1, started ++ shown ++ [UiSetIsLoading false])
        | Thrown error =>
            (Returned VNull, c1,
             started ++ [UiSetState previousState; UiSetIsError (Some error);
                         UiSetIsLoading false])
        end
    | Thrown error =>
        (Returned VNull, c1,
         started ++ [UiSetState previousState; UiSetIsError (Some error);
                     UiSetIsLoading false])
    end.

Definition refreshData (now : Z) : Ui unit :=
  fun c =>
    let '(_, c0, tr0) := clearCache (Some key) c in
    let '(r, c1, tr) := fetchData now key method payload urlPath false c0 in
    let started :=
      (UiStore <$> tr0) ++ [UiSetIsLoading true; UiSetIsError None] ++ (UiStore <$> tr) in
    match r with
    | Returned data =>
        match show_data data with
        | Returned shown => (Returned tt, c1, started ++ shown ++ [UiSetIsLoading false])
        | Thrown error =>
            (Returned tt, c1, started ++ [UiSetIsError (Some error); UiSetIsLoading false])
        end
    | Thrown error =>
        (Returned tt, c1, started ++ [UiSetIsError (Some error); UiSetIsLoading false])
    end.

Definition fetchDataIfNeeded (now : Z) : Ui unit :=
  fun c =>
    let '(r, c1, tr) := fetchData now key method payload urlPath keepCache c in
    let started := [UiSetIsLoading true; UiSetIsError None] ++ (UiStore <$> tr) in
    match r with
    | Returned data =>
        match show_data data with
        | Returned shown => (Returned tt, c1, started ++ shown ++ [UiSetIsLoading false])
        | Thrown error =>
            (Returned tt, c1, started ++ [UiSetIsError (Some error); UiSetIsLoading false])
        end
    | Thrown error =>
        (Returned tt, c1, started ++ [UiSetIsError (Some error); UiSetIsLoading false])
    end.

(** The first effect of the hook: [if (method === "GET") fetchDataIfNeeded()]. *)
Definition fetchEffect (now : Z) : Ui unit :=
  match method with
  | GET => fetchDataIfNeeded now
  | _ => fun c => (Returned tt, c, [])
  end.

(** The listener the second effect subscribes: what it hands to
    [setState] when the store broadcasts [newState]. *)
Definition updateState (newState : gmap string Value) : Outcome Value :=
  select_item_opt idKey itemId (default VUndefined (newState !! key)).

End UseStore.

(** The setter calls of a trace that raise the error flag. *)
Definition raises_error (e : UiEvent) : bool :=
  match e with UiSetIsError (Some _) => true | _ => false end.

Definition sets_state (e : UiEvent) : bool :=
  match e with UiSetState _ => true | _ => false end.


(** A store as the operations keep it: no listener twice, a value for
    every timestamp, only truthy values in the cache. *)
Definition store_wf {W} (s : Store W) : Prop :=
  NoDup (listeners s) /\
  (forall k, is_Some (cacheExpiration s !! k) -> is_Some (cache s !! k)) /\
  (forall k v, cache s !! k = Some v -> truthy v = true).

(** Further configurations used to exercise the model. *)

Module Session.

(** ["items"] registered with a lifetime of one minute and fetched, with
    caching, at time 100. *)
Definition cached : Config nat :=
  (fetchData 100 "items" GET VNull (VStr "") true
     (Scenario.with_api Scenario.flaky 60000)).1.2.

(** The same configuration, as a session with its history. *)
Definition fetch_session : list (Op nat) :=
  [OpRegisterAPI "items" (Some Scenario.flaky) 60000;
   OpFetchData 100 "items" GET VNull (VStr "") true].

Definition fetched : Config nat * list (Step nat) :=
  run_ops fetch_session Scenario.fresh [].

(** A component that watches one item of ["profile"] (its listener is
    [updateState] with an [itemId]) while ["profile"] holds a record, not
    a sequence: that listener throws at every broadcast. *)
Definition watcher (l : Listener) (st : gmap string Value) : option Exn :=
  match l with
  | 1%nat =>
      match updateState "profile" (VNum 1) "id" st with
      | Thrown e => Some e
      | Returned _ => None
      end
  | _ => None
  end.

Definition fragile_session : list (Op nat) :=
  [OpCreateStore {["items" := Scenario.records;
                   "profile" := VObj [("id", VNum 1); ("name", VStr "Z")]]};
   OpRegisterAPI "items" (Some (Scenario.constant Scenario.records)) 60000;
   OpSubscribe 1%nat;
   OpSubscribe 2%nat].

Definition fragile : Config nat :=
  (run_ops fragile_session (mkConfig new_store 0%nat watcher) []).1.

(** The same after a [GET] of ["items"] at time 100: the handler answers
    and the cache is written; the broadcast is cut by the first listener. *)
Definition fragile_cached : Config nat :=
  (fetchData 100 "items" GET VNull (VStr "") true fragile).1.2.

(** A store whose sequence under ["items"] has a hole. *)
Definition holed : Config nat :=
  (createStore {["items" := VArr [VObj [("id", VNum 5)]; VNull]]} Scenario.fresh).1.2.

End Session.

(** ** The JavaScript build

    The repository also ships the store and the hook as plain JavaScript.
    The three functions below are those that differ from their TypeScript
    counterparts above; the rest of the class is the same text. *)

Module JSBuild.

Section JSBuild.

Context {W : Type}.

(** [retryFetch] without the final [throw]: falling out of the loop
    returns [undefined]. *)
Equations? retry_loop (fetchFunction : M W Value) (retries delay attempts : Z)
  : M W Value by wf (Z.to_nat (retries - attempts)) lt :=
retry_loop fetchFunction retries delay attempts with Z_lt_dec attempts retries := {
  | left _ =>
      try_catch fetchFunction (fun error =>
        let attempts' := attempts + 1 in
        if Z.eqb attempts' retries then throw error
        else (sleep (delay * 2 ^ attempts') ;;
              retry_loop fetchFunction retries delay attempts'))
  | right _ => ret VUndefined }.
Proof. lia. Qed.

Definition retryFetch (fetchFunction : M W Value) (retries delay : Z) : M W Value :=
  retry_loop fetchFunction retries delay 0.

(** [cache.has(key) && cacheExpirationTime &&
     now - cacheExpirationTime <= apiHandlers[key]?.cacheDuration]:
    a timestamp of 0 is falsy, and no number is [<= undefined]. *)
Definition cache_hit (s : Store W) (key : string) (now : Z) : option Value :=
  match cache s !! key, cacheExpiration s !! key with
  | Some v, Some cacheExpirationTime =>
      if negb (Z.eqb cacheExpirationTime 0) &&
         match apiHandlers s !! key with
         | Some h => now - cacheExpirationTime <=? cacheDuration h
         | None => false
         end
      then Some v else None
  | _, _ => None
  end.

Definition served_from_cache (s : Store W) (key : string) (method : Method)
    (now : Z) : option Value :=
  match method with
  | GET => cache_hit s key now
  | _ => None
  end.

(** Only [POST] and [PUT] send the payload. *)
Definition handler_argument (method : Method) (payload urlPath : Value) : Value :=
  let payload := match payload with VUndefined => VNull | _ => payload end in
  match method with
  | POST | PUT => payload
  | _ => urlPath
  end.

Definition fetchData (now : Z) (key : string) (method : Method)
    (payload urlPath : Value) (keepCache : bool) : M W Value :=
  s ← get_store;
  match served_from_cache s key method now with
  | Some cached => ret cached
  | None =>
      match apiHandlers s !! key with
      | None =>
          emit (EvLog ("No API registered for key: " +:+ key) None) ;;
          ret VNull
      | Some h =>
          try_catch
            (data ← retryFetch
                      (call_handler key h (handler_argument method payload urlPath))
                      3 1000;
             (if truthy data then
                (if keepCache then
                   s1 ← get_store;
                   put_store (with_cacheExpiration (<[key := now]> (cacheExpiration s1))
                                (with_cache (<[key := data]> (cache s1)) s1))
                 else ret tt) ;;
                setState {[key := data]}
              else ret tt) ;;
             ret data)
            (fun error =>
               emit (EvLog "API call error:" (Some error)) ;;
               ret VNull)
      end
  end.

(** [store.getState()[key]?.filter(...) || []]: [?.] stops at [null] and
    [undefined] only; any other value without a [filter] method throws. *)
Definition deleteItem (key idKey : string) (deleteItemId : Value) : M W unit :=
  if negb (truthy deleteItemId) then ret tt
  else
    st ← getState;
    updatedData ←
      match default VUndefined (st !! key) with
      | VArr items =>
          kept ← filterM (fun item => same ← id_matches idKey deleteItemId item;
                                      ret (negb same)) items;
          ret (VArr kept)
      | VUndefined | VNull => ret (VArr [])
      | _ => throw (TypeError "store.getState()[key]?.filter is not a function")
      end;
    setState {[key := updatedData]}.

End JSBuild.

End JSBuild.

(** ** Cache entries

    The store keeps what it knows of a key in two maps: the value in
    [cache], the time of its fetch in [cacheExpiration]; [fetchData]
    reads them together ([this.cache.has(key) && cacheExpirationTime !==
    undefined]) and writes them together, and [clearCache] removes them
    together.  A cache entry is such a pair. *)
Definition cache_entry {W} (s : Store W) (key : string) : Prop :=
  is_Some (cache s !! key) /\ is_Some (cacheExpiration s !! key).

(** * Properties *)

(** ** The retry loop, one iteration at a time *)

Section RetryFacts.

Context {W : Type}.
Implicit Types (f : M W Value) (c : Config W) (key : string) (h : APIHandler W).

Lemma retry_loop_lt f retries delay attempts c :
  attempts < retries ->
  retry_loop f retries delay attempts c =
  try_catch f (fun error =>
    if attempts + 1 =? retries then throw error
    else (sleep (delay * 2 ^ (attempts + 1)) ;;
          retry_loop f retries delay (attempts + 1))) c.
Proof.
  intros Hlt. rewrite retry_loop_equation_1.
  destruct (Z_lt_dec attempts retries) as [?|Hn]; [reflexivity | contradiction].
Qed.

Lemma retry_loop_ge f retries delay attempts c :
  ~ attempts < retries ->
  retry_loop f retries delay attempts c =
  (Thrown (JsError "Unexpected error in retryFetch"), c, []).
Proof.
  intros Hge. rewrite retry_loop_equation_1.
  destruct (Z_lt_dec attempts retries) as [?|Hn]; [contradiction | reflexivity].
Qed.

(** Big-step induction over the iterations of the loop. *)
Lemma retry_loop_cases f retries delay
    (P : Z -> Config W -> Outcome Value * Config W * list Event -> Prop) :
  (forall a c, ~ a < retries ->
     P a c (Thrown (JsError "Unexpected error in retryFetch"), c, [])) ->
  (forall a c v c1 tr1, a < retries -> f c = (Returned v, c1, tr1) ->
     P a c (Returned v, c1, tr1)) ->
  (forall a c e c1 tr1, a < retries -> f c = (Thrown e, c1, tr1) ->
     a + 1 = retries -> P a c (Thrown e, c1, tr1)) ->
  (forall a c e c1 tr1 res c2 tr2,
     a < retries -> f c = (Thrown e, c1, tr1) -> a + 1 <> retries ->
     retry_loop f retries delay (a + 1) c1 = (res, c2, tr2) ->
     P (a + 1) c1 (res, c2, tr2) ->
     P a c (res, c2, tr1 ++ EvSleep (delay * 2 ^ (a + 1)) :: tr2)) ->
  forall a c, P a c (retry_loop f retries delay a c).
Proof.
  intros Hexit Hok Hlast Hagain a.
  remember (Z.to_nat (retries - a)) as n eqn:Hn.
  revert a Hn. induction n as [|n IH]; intros a Hn c.
  - rewrite retry_loop_ge by lia. apply Hexit. lia.
  - assert (Hlt : a < retries) by lia.
    rewrite retry_loop_lt by exact Hlt. unfold try_catch.
    destruct (f c) as [[[v|e] c1] tr1] eqn:Hf.
    + now apply Hok.
    + destruct (Z.eqb_spec (a + 1) retries) as [Heq|Hne].
      * cbn. rewrite app_nil_r. now apply (Hlast a c e c1 tr1).
      * unfold bind, sleep, emit.
        destruct (retry_loop f retries delay (a + 1) c1) as [[res c2] tr2] eqn:Hrec.
        cbn. apply (Hagain a c e c1 tr1 res c2 tr2); try assumption.
        rewrite <- Hrec. apply IH. lia.
Qed.

Lemma call_handler_run key h arg c :
  call_handler key h arg c =
  ((fetchFunction h arg (world c)).1,
   mkConfig (store c) (fetchFunction h arg (world c)).2 (callbacks c),
   [EvCall key arg (fetchFunction h arg (world c)).1]).
Proof. unfold call_handler. now destruct (fetchFunction h arg (world c)). Qed.

(** The loop never touches the store: only the world moves. *)
Lemma retry_loop_store key h arg retries delay a c :
  store (retry_loop (call_handler key h arg) retries delay a c).1.2 = store c.
Proof.
  apply (retry_loop_cases (call_handler key h arg) retries delay
           (fun _ c out => store out.1.2 = store c)); clear a c.
  - reflexivity.
  - intros a c v c1 tr1 _ Hf. rewrite call_handler_run in Hf. now inversion Hf.
  - intros a c e c1 tr1 _ Hf _. rewrite call_handler_run in Hf. now inversion Hf.
  - intros a c e c1 tr1 res c2 tr2 _ Hf _ _ IH.
    rewrite call_handler_run in Hf. inversion Hf; subst. exact IH.
Qed.

(** Its events are handler calls and sleeps. *)
Lemma retry_loop_quiet key h arg retries delay a c :
  Forall (fun e => is_notify e = false)
    (retry_loop (call_handler key h arg) retries delay a c).2.
Proof.
  apply (retry_loop_cases (call_handler key h arg) retries delay
           (fun _ _ out => Forall (fun e => is_notify e = false) out.2)); clear a c.
  - constructor.
  - intros a c v c1 tr1 _ Hf. rewrite call_handler_run in Hf. inversion Hf.
    repeat constructor.
  - intros a c e c1 tr1 _ Hf _. rewrite call_handler_run in Hf. inversion Hf.
    repeat constructor.
  - intros a c e c1 tr1 res c2 tr2 _ Hf _ _ IH.
    rewrite call_handler_run in Hf. inversion Hf; subst. cbn in *.
    repeat constructor. exact IH.
Qed.

(** A value comes back only from a call that resolved with it. *)
Lemma retry_loop_returned key h arg retries delay a c data :
  (retry_loop (call_handler key h arg) retries delay a c).1.1 = Returned data ->
  EvCall key arg (Returned data)
    ∈ (retry_loop (call_handler key h arg) retries delay a c).2.
Proof.
  apply (retry_loop_cases (call_handler key h arg) retries delay
           (fun _ _ out => out.1.1 = Returned data ->
                           EvCall key arg (Returned data) ∈ out.2)); clear a c.
  - discriminate.
  - intros a c v c1 tr1 _ Hf Hv. rewrite call_handler_run in Hf.
    inversion Hf as [[Hr Hc Ht]]. cbn in Hv. rewrite Hr, Hv. apply list_elem_of_here.
  - intros a c e c1 tr1 _ _ _ Hv. discriminate.
  - intros a c e c1 tr1 res c2 tr2 _ _ _ _ IH Hv. cbn in *.
    apply elem_of_app. right. apply list_elem_of_further. now apply IH.
Qed.

(** With at least one attempt allowed, the handler is called first thing. *)
Lemma retry_loop_first_call key h arg retries delay a c :
  a < retries ->
  exists tr,
    (retry_loop (call_handler key h arg) retries delay a c).2 =
    EvCall key arg (fetchFunction h arg (world c)).1 :: tr.
Proof.
  intros Hlt. rewrite retry_loop_lt by exact Hlt.
  unfold try_catch. rewrite call_handler_run.
  destruct (fetchFunction h arg (world c)).1 as [v|e]; cbn.
  - now eexists.
  - destruct (a + 1 =? retries); cbn; [now eexists|].
    unfold bind, sleep, emit.
    destruct (retry_loop _ _ _ _ _) as [[res c2] tr2]. cbn. now eexists.
Qed.

End RetryFacts.

(** ** Counting attempts and reading the back-off *)

Section RetryCounts.

Context {W : Type}.
Implicit Types (c : Config W) (key : string) (h : APIHandler W).

Lemma call_outcomes_length (f : Value -> W -> Outcome Value * W) arg w n :
  length (call_outcomes f arg w n) = n.
Proof.
  revert w. induction n as [|n IH]; intros w; cbn; [reflexivity|].
  destruct (f arg w) as [r w']. cbn. now rewrite IH.
Qed.

Lemma invocations_app tr1 tr2 :
  invocations (tr1 ++ tr2) = (invocations tr1 + invocations tr2)%nat.
Proof. unfold invocations. now rewrite List.filter_app, length_app. Qed.

(** [N - 1] rejections followed by a resolution, with [N] attempts left. *)
Lemma retry_loop_success key h arg retries delay errs :
  forall a c v,
    Z.of_nat (length errs) + 1 <= retries - a ->
    call_outcomes (fetchFunction h) arg (world c) (S (length errs)) =
      (Thrown <$> errs) ++ [Returned v] ->
    (retry_loop (call_handler key h arg) retries delay a c).1.1 = Returned v /\
    invocations (retry_loop (call_handler key h arg) retries delay a c).2 =
      S (length errs).
Proof.
  induction errs as [|e errs IH]; intros a c v Hle Hout.
  - cbn in Hle, Hout. rewrite retry_loop_lt by lia.
    unfold try_catch. rewrite call_handler_run.
    destruct (fetchFunction h arg (world c)) as [r w']. cbn in *.
    inversion Hout; subst. cbn. split; reflexivity.
  - cbn [length] in Hle. rewrite retry_loop_lt by lia.
    unfold try_catch. rewrite call_handler_run. cbn [call_outcomes] in Hout.
    destruct (fetchFunction h arg (world c)) as [r w'] eqn:Hcall.
    cbn [fmap list_fmap app] in Hout. inversion Hout as [[Hr Hrest]]. subst r.
    cbn [fst snd].
    destruct (Z.eqb_spec (a + 1) retries) as [Heq|Hne]; [lia|].
    unfold bind, sleep, emit.
    specialize (IH (a + 1) (mkConfig (store c) w' (callbacks c)) v).
    destruct (retry_loop _ _ _ (a + 1) _) as [[res c2] tr2]. cbn in IH |- *.
    destruct IH as [IH1 IH2]; [lia | exact Hrest |].
    split; [exact IH1|]. unfold invocations in *. cbn. now rewrite IH2.
Qed.

(** As many rejections as there are attempts left. *)
Lemma retry_loop_exhaust key h arg retries delay errs :
  forall a c,
    errs <> [] ->
    Z.of_nat (length errs) = retries - a ->
    call_outcomes (fetchFunction h) arg (world c) (length errs) = Thrown <$> errs ->
    (exists e, last errs = Some e /\
       (retry_loop (call_handler key h arg) retries delay a c).1.1 = Thrown e) /\
    invocations (retry_loop (call_handler key h arg) retries delay a c).2 =
      length errs.
Proof.
  induction errs as [|e errs IH]; intros a c Hne Hlen Hout; [contradiction|].
  cbn [length] in Hlen. rewrite retry_loop_lt by lia.
  unfold try_catch. rewrite call_handler_run. cbn [length call_outcomes] in Hout.
  destruct (fetchFunction h arg (world c)) as [r w'] eqn:Hcall.
  cbn [fmap list_fmap] in Hout. inversion Hout as [[Hr Hrest]]. subst r.
  cbn [fst snd].
  destruct errs as [|e' errs].
  - cbn in Hlen. destruct (Z.eqb_spec (a + 1) retries) as [Heq|Hn]; [|lia].
    cbn. split; [exists e; split; reflexivity | reflexivity].
  - destruct (Z.eqb_spec (a + 1) retries) as [Heq|Hn]; [cbn [length] in Hlen; lia|].
    unfold bind, sleep, emit.
    specialize (IH (a + 1) (mkConfig (store c) w' (callbacks c))).
    destruct (retry_loop _ _ _ (a + 1) _) as [[res c2] tr2]. cbn [fst snd] in IH |- *.
    destruct IH as [[e0 [Hlast Hres]] Hinv];
      [discriminate | cbn [length] in *; lia | exact Hrest |].
    split.
    + exists e0. split; [|exact Hres].
      rewrite <- Hlast. reflexivity.
    + unfold invocations in *. cbn. now rewrite Hinv.
Qed.

Lemma waits_length prev tr : length (waits prev tr) = invocations tr.
Proof.
  revert prev. induction tr as [|e tr IH]; intros prev; [reflexivity|].
  destruct e; cbn; unfold invocations in *; cbn; now rewrite ?IH.
Qed.

(** After [a] failed attempts, the sleeps double from [delay * 2 ^ (a + 1)]. *)
Lemma retry_loop_waits key h arg retries delay a c :
  forall prev j x,
    waits prev (retry_loop (call_handler key h arg) retries delay a c).2 !! j = Some x ->
    (j = 0%nat /\ x = prev) \/
    ((1 <= j)%nat /\ x = Some (delay * 2 ^ (a + Z.of_nat j))).
Proof.
  apply (retry_loop_cases (call_handler key h arg) retries delay
           (fun a _ out => forall prev j x,
              waits prev out.2 !! j = Some x ->
              (j = 0%nat /\ x = prev) \/
              ((1 <= j)%nat /\ x = Some (delay * 2 ^ (a + Z.of_nat j)))));
    clear a c.
  - intros a c _ prev j x Hj. cbn in Hj. discriminate.
  - intros a c v c1 tr1 _ Hf prev j x Hj. rewrite call_handler_run in Hf.
    inversion Hf; subst. cbn in Hj. destruct j as [|j]; cbn in Hj.
    + left. split; congruence.
    + discriminate.
  - intros a c e c1 tr1 _ Hf _ prev j x Hj. rewrite call_handler_run in Hf.
    inversion Hf; subst. cbn in Hj. destruct j as [|j]; cbn in Hj.
    + left. split; congruence.
    + discriminate.
  - intros a c e c1 tr1 res c2 tr2 _ Hf _ _ IH prev j x Hj.
    rewrite call_handler_run in Hf. inversion Hf; subst. cbn in Hj, IH.
    destruct j as [|j]; cbn in Hj.
    + left. split; congruence.
    + right. split; [lia|].
      destruct (IH _ _ _ Hj) as [[-> ->]|[Hj1 ->]]; do 3 f_equal; lia.
Qed.

End RetryCounts.

(** ** Claims about the retry wrapper *)

(** C2.  With [retries >= 1] attempts allowed: if the wrapped handler
    rejects its first [N - 1] calls and resolves on call [N <= retries],
    [retryFetch] returns the resolved value (after exactly [N] calls); if
    every call rejects, the handler is called exactly [retries] times and
    the last rejection is thrown to the caller. *)
Theorem retryFetch_retries {W} (key : string) (h : APIHandler W) (arg : Value)
    (retries delay : Z) (c : Config W) :
  1 <= retries ->
  (forall errs v,
     Z.of_nat (length errs) + 1 <= retries ->
     call_outcomes (fetchFunction h) arg (world c) (S (length errs)) =
       (Thrown <$> errs) ++ [Returned v] ->
     (retryFetch (call_handler key h arg) retries delay c).1.1 = Returned v /\
     invocations (retryFetch (call_handler key h arg) retries delay c).2 =
       S (length errs)) /\
  (forall errs,
     call_outcomes (fetchFunction h) arg (world c) (Z.to_nat retries) =
       Thrown <$> errs ->
     (exists e, last errs = Some e /\
        (retryFetch (call_handler key h arg) retries delay c).1.1 = Thrown e) /\
     invocations (retryFetch (call_handler key h arg) retries delay c).2 =
       Z.to_nat retries).
Proof.
  intros Hpos. split.
  - intros errs v Hle Hout. apply retry_loop_success; [lia | exact Hout].
  - intros errs Hout.
    assert (Hlen : length errs = Z.to_nat retries).
    { apply (f_equal length) in Hout.
      now rewrite call_outcomes_length, length_fmap in Hout. }
    rewrite <- Hlen in Hout |- *.
    apply retry_loop_exhaust; [| lia | exact Hout].
    intros ->. cbn in Hlen. lia.
Qed.

Lemma retryFetch_retries_witness :
  (retryFetch (call_handler "items" (mkAPIHandler Scenario.flaky 60000) VNull)
     3 1000 Scenario.fresh).1.1 = Returned Scenario.records /\
  invocations
    (retryFetch (call_handler "items" (mkAPIHandler Scenario.down 60000) VNull)
       3 1000 Scenario.fresh).2 = 3%nat.
Proof.
  split.
  - refine (proj1 (proj1 (retryFetch_retries "items"
              (mkAPIHandler Scenario.flaky 60000) VNull 3 1000 Scenario.fresh _)
              [Rejected (VStr "down"); Rejected (VStr "down")]
              Scenario.records _ _)).
    + lia.
    + cbn. lia.
    + reflexivity.
  - refine (proj2 (proj2 (retryFetch_retries "items"
              (mkAPIHandler Scenario.down 60000) VNull 3 1000 Scenario.fresh _)
              [Rejected (VStr "down"); Rejected (VStr "down"); Rejected (VStr "down")]
              _)).
    + lia.
    + reflexivity.
Defined.


(** So at [retries = 0] a handler that would reject is not called once but
    never, and its rejection is not what the caller sees. *)
Lemma retryFetch_zero_not_one_attempt :
  let run := retryFetch (call_handler "items" (mkAPIHandler Scenario.down 60000) VNull)
               0 1000 Scenario.fresh in
  ~ (invocations run.2 = 1%nat /\ run.1.1 = Thrown (Rejected (VStr "down"))).
Proof. vm_compute. intros [H _]. discriminate. Qed.

(** C5, as the code has it.  The sleep right before attempt [k >= 2] is
    [delay * 2 ^ (k - 1)]: the exponent is the number of attempts that
    have failed so far. *)
Theorem backoff_before_attempt {W} (key : string) (h : APIHandler W) (arg : Value)
    (retries delay : Z) (c : Config W) (k : nat) :
  (2 <= k)%nat ->
  (k <= invocations (retryFetch (call_handler key h arg) retries delay c).2)%nat ->
  delay_before k (retryFetch (call_handler key h arg) retries delay c).2 =
    Some (delay * 2 ^ (Z.of_nat k - 1)).
Proof.
  intros Hk Hmade. destruct k as [|j]; [lia|]. unfold delay_before, retryFetch in *.
  destruct (waits None (retry_loop (call_handler key h arg) retries delay 0 c).2 !! j)
    as [x|] eqn:Hj.
  - destruct (retry_loop_waits key h arg retries delay 0 c None j x Hj)
      as [[-> _]|[_ ->]]; [lia|].
    cbn. do 3 f_equal. lia.
  - apply lookup_ge_None in Hj. rewrite waits_length in Hj. lia.
Qed.

Lemma backoff_before_attempt_witness :
  delay_before 2
    (retryFetch (call_handler "items" (mkAPIHandler Scenario.down 60000) VNull)
       3 1000 Scenario.fresh).2 = Some 2000.
Proof.
  refine (backoff_before_attempt "items" (mkAPIHandler Scenario.down 60000) VNull
            3 1000 Scenario.fresh 2 _ _).
  - lia.
  - vm_compute. lia.
Defined.

(** C5 as stated fails: before attempt 2 the wrapper sleeps 2000 ms, not
    [1000 * 2 ^ 2]. *)
Lemma backoff_not_two_to_the_k :
  delay_before 2
    (retryFetch (call_handler "items" (mkAPIHandler Scenario.down 60000) VNull)
       3 1000 Scenario.fresh).2 <> Some (1000 * 2 ^ 2).
Proof. vm_compute. discriminate. Qed.

(** ** Broadcasts *)

Section BroadcastFacts.

Context {W : Type}.
Implicit Types (c : Config W) (key : string) (h : APIHandler W) (s : Store W).

Lemma retry_loop_callbacks key h arg retries delay a c :
  callbacks (retry_loop (call_handler key h arg) retries delay a c).1.2 = callbacks c.
Proof.
  apply (retry_loop_cases (call_handler key h arg) retries delay
           (fun _ c out => callbacks out.1.2 = callbacks c)); clear a c.
  - reflexivity.
  - intros a c v c1 tr1 _ Hf. rewrite call_handler_run in Hf. now inversion Hf.
  - intros a c e c1 tr1 _ Hf _. rewrite call_handler_run in Hf. now inversion Hf.
  - intros a c e c1 tr1 res c2 tr2 _ Hf _ _ IH.
    rewrite call_handler_run in Hf. inversion Hf; subst. exact IH.
Qed.

(** When no callback throws, everybody is notified. *)
Lemma notify_each_accept cb st (ls : list Listener) :
  (forall l, l ∈ ls -> cb l st = None) ->
  notify_each cb st ls = (Returned tt, (fun l => EvNotify l st) <$> ls).
Proof.
  induction ls as [|l ls IH]; intros Hacc; [reflexivity|].
  cbn. rewrite (Hacc l) by apply list_elem_of_here.
  rewrite IH; [reflexivity|]. intros l' Hl'. apply Hacc. now apply list_elem_of_further.
Qed.

(** The first callback that throws ends the broadcast. *)
Lemma notify_each_throw cb st (ls1 : list Listener) l ls2 e :
  (forall l', l' ∈ ls1 -> cb l' st = None) ->
  cb l st = Some e ->
  notify_each cb st (ls1 ++ l :: ls2) =
  (Thrown e, (fun l => EvNotify l st) <$> (ls1 ++ [l])).
Proof.
  intros Hacc He. induction ls1 as [|l1 ls1 IH]; cbn.
  - now rewrite He.
  - rewrite (Hacc l1) by apply list_elem_of_here. rewrite IH; [reflexivity|].
    intros l' Hl'. apply Hacc. now apply list_elem_of_further.
Qed.

Lemma notify_each_listener_throws c st before l after e :
  listener_throws c st before l after e ->
  notify_each (callbacks c) st (listeners (store c)) =
  (Thrown e, (fun l => EvNotify l st) <$> (before ++ [l])).
Proof. intros [-> [Hacc He]]. now apply notify_each_throw. Qed.

Lemma notify_each_listeners_accept c st :
  listeners_accept c st ->
  notify_each (callbacks c) st (listeners (store c)) =
  (Returned tt, (fun l => EvNotify l st) <$> listeners (store c)).
Proof. apply notify_each_accept. Qed.

(** In any case the events are the beginning of a complete broadcast. *)
Lemma notify_each_prefix cb st (ls : list Listener) :
  exists n, (notify_each cb st ls).2 = take n ((fun l => EvNotify l st) <$> ls).
Proof.
  induction ls as [|l ls [n IH]]; [now exists 0%nat|]. cbn.
  destruct (cb l st).
  - now exists 1%nat.
  - destruct (notify_each cb st ls) as [r tr]. cbn in *. exists (S n). now rewrite IH.
Qed.

Lemma notify_each_sub cb st (ls : list Listener) ev :
  ev ∈ (notify_each cb st ls).2 -> ev ∈ (fun l => EvNotify l st) <$> ls.
Proof.
  destruct (notify_each_prefix cb st ls) as [n ->]. apply subseteq_take.
Qed.

(** A broadcast that returns has notified everybody. *)
Lemma notify_each_returned cb st (ls : list Listener) :
  (notify_each cb st ls).1 = Returned tt ->
  (notify_each cb st ls).2 = (fun l => EvNotify l st) <$> ls.
Proof.
  induction ls as [|l ls IH]; [reflexivity|]. cbn.
  destruct (cb l st); [discriminate|].
  destruct (notify_each cb st ls) as [r tr]. cbn in *. intros ->. now rewrite IH.
Qed.

Lemma notify_each_quiet cb st (ls : list Listener) :
  invocations (notify_each cb st ls).2 = 0%nat /\
  List.filter is_notify (notify_each cb st ls).2 = (notify_each cb st ls).2.
Proof.
  induction ls as [|l ls [IH1 IH2]]; [now split|]. cbn.
  destruct (cb l st); [now split|].
  destruct (notify_each cb st ls) as [r tr]. cbn in *. split; [exact IH1|].
  now rewrite IH2.
Qed.

Lemma setState_run newState c :
  setState newState c =
  ((broadcast c (with_state (newState ∪ state (store c)) (store c))).1,
   mkConfig (with_state (newState ∪ state (store c)) (store c)) (world c) (callbacks c),
   (broadcast c (with_state (newState ∪ state (store c)) (store c))).2).
Proof.
  unfold setState, bind, get_store, put_store, notifyListeners, broadcast.
  cbn [fst snd store world callbacks with_state state listeners].
  destruct (notify_each _ _ _) as [[[]|e] tr]; reflexivity.
Qed.

(** The broadcast that follows the commit of a fetch. *)
Lemma broadcast_committed c cr now key d keepCache :
  store cr = store c ->
  callbacks cr = callbacks c ->
  broadcast cr (committed now key d keepCache (store cr)) =
  notify_each (callbacks c) (<[key := d]> (state (store c))) (listeners (store c)).
Proof.
  intros Hs Hc. unfold broadcast. rewrite Hs, Hc. unfold committed.
  destruct keepCache; cbn; now rewrite insert_union_singleton_l.
Qed.

Lemma config_eta c : mkConfig (store c) (world c) (callbacks c) = c.
Proof. now destruct c. Qed.

End BroadcastFacts.

(** ** [fetchData], path by path *)

Section FetchFacts.

Context {W : Type}.
Implicit Types (c : Config W) (key : string) (h : APIHandler W).

Lemma fetchData_served now key method payload urlPath keepCache c v :
  served_from_cache (store c) key method now = Some v ->
  fetchData now key method payload urlPath keepCache c = (Returned v, c, []).
Proof. intros Hs. unfold fetchData, bind, get_store. cbn. now rewrite Hs. Qed.

Lemma fetchData_unregistered now key method payload urlPath keepCache c :
  served_from_cache (store c) key method now = None ->
  apiHandlers (store c) !! key = None ->
  fetchData now key method payload urlPath keepCache c =
  (Returned VNull, c, [EvLog ("No API registered for key: " +:+ key) None]).
Proof.
  intros Hs Hh. unfold fetchData, bind, get_store. cbn. now rewrite Hs, Hh.
Qed.

Lemma fetchData_fetched now key method payload urlPath keepCache c h :
  served_from_cache (store c) key method now = None ->
  apiHandlers (store c) !! key = Some h ->
  fetchData now key method payload urlPath keepCache c =
  match retryFetch (call_handler key h (handler_argument method payload urlPath))
          3 1000 c with
  | (Returned data, c1, tr1) =>
      if truthy data
      then
        match broadcast c1 (committed now key data keepCache (store c1)) with
        | (Returned _, ntr) =>
            (Returned data,
             mkConfig (committed now key data keepCache (store c1)) (world c1)
               (callbacks c1),
             tr1 ++ ntr)
        | (Thrown e, ntr) =>
            (Returned VNull,
             mkConfig (committed now key data keepCache (store c1)) (world c1)
               (callbacks c1),
             (tr1 ++ ntr) ++ [EvLog "API call error:" (Some e)])
        end
      else (Returned data, c1, tr1)
  | (Thrown e, c1, tr1) =>
      (Returned VNull, c1, tr1 ++ [EvLog "API call error:" (Some e)])
  end.
Proof.
  intros Hs Hh. unfold fetchData. unfold bind at 1. unfold get_store at 1.
  cbn [fst snd]. rewrite Hs, Hh.
  unfold try_catch. unfold bind at 1.
  destruct (retryFetch _ 3 1000 c) as [[[data|e] c1] tr1]; [|reflexivity].
  unfold bind at 1.
  destruct (truthy data); [|cbn; now rewrite ?app_nil_r].
  unfold bind at 1.
  assert (Hcommit :
    (if keepCache
     then bind get_store (fun s1 =>
            put_store (with_cacheExpiration (<[key := now]> (cacheExpiration s1))
                         (with_cache (<[key := data]> (cache s1)) s1)))
     else ret tt) c1 =
    (Returned tt,
     mkConfig (if keepCache
               then with_cacheExpiration (<[key := now]> (cacheExpiration (store c1)))
                      (with_cache (<[key := data]> (cache (store c1))) (store c1))
               else store c1) (world c1) (callbacks c1), [])).
  { destruct keepCache; cbn; [reflexivity | now rewrite config_eta]. }
  rewrite Hcommit. rewrite setState_run. cbn [fst snd store world callbacks].
  change (with_state _ (if keepCache then _ else _))
    with (committed now key data keepCache (store c1)).
  destruct (broadcast _ _) as [[[]|e] ntr]; cbn; now rewrite ?app_nil_r.
Qed.

Lemma retryFetch_store key h arg retries delay c :
  store (retryFetch (call_handler key h arg) retries delay c).1.2 = store c.
Proof. apply retry_loop_store. Qed.

(** A fetch that goes to the handler starts by calling it. *)
Lemma fetchData_first_call now key method payload urlPath keepCache c h :
  served_from_cache (store c) key method now = None ->
  apiHandlers (store c) !! key = Some h ->
  exists tr,
    (fetchData now key method payload urlPath keepCache c).2 =
    EvCall key (handler_argument method payload urlPath)
      (fetchFunction h (handler_argument method payload urlPath) (world c)).1 :: tr.
Proof.
  intros Hs Hh. rewrite (fetchData_fetched _ _ _ _ _ _ _ _ Hs Hh).
  destruct (retry_loop_first_call key h (handler_argument method payload urlPath)
              3 1000 0 c) as [tr Htr]; [lia|].
  unfold retryFetch.
  destruct (retry_loop _ 3 1000 0 c) as [[res c2] tr2]. cbn in Htr. subst tr2.
  destruct res as [data|e]; [destruct (truthy data)|]; cbn [fst snd]; eauto.
  destruct (broadcast c2 _) as [[[]|e] ntr]; cbn; eauto.
Qed.

End FetchFacts.

Section CacheFacts.

Context {W : Type}.
Implicit Types (s : Store W) (key : string).

Lemma or_zero_Some d : or_zero (Some d) = d.
Proof. cbn. now destruct (Z.eqb_spec d 0) as [->|]. Qed.

Lemma cache_hit_committed now key data s t :
  cache_hit (committed now key data true s) key t =
  if t - now <=? or_zero (cacheDuration <$> apiHandlers s !! key)
  then Some data else None.
Proof. unfold cache_hit, committed. cbn. now rewrite !lookup_insert_eq. Qed.

Lemma cache_hit_timestamp s key now v :
  cache_hit s key now = Some v -> is_Some (cacheExpiration s !! key).
Proof.
  unfold cache_hit. destruct (cache s !! key); [|discriminate].
  destruct (cacheExpiration s !! key); [eauto | discriminate].
Qed.

End CacheFacts.

(** ** Claims about [fetchData] on a given store *)

(** C1.  Let [key] have a registered handler of lifetime [L], and let a
    [GET] at time [t0] miss the cache, obtain a truthy value [d] from the
    handler and cache it ([keepCache] true).  A second [GET] at [t1]
    with [t1 - t0 <= L] returns [d] and does nothing else: no handler
    call, no event at all, the configuration is unchanged.  With
    [t1 - t0 > L] the second read starts by calling the handler again. *)
Theorem fetchData_freshness {W} (c : Config W) (key : string) (h : APIHandler W)
    (L t0 t1 : Z) (p0 u0 p1 u1 : Value) (keep1 : bool) (d : Value) :
  apiHandlers (store c) !! key = Some h ->
  cacheDuration h = L ->
  cache_hit (store c) key t0 = None ->
  (fetchData t0 key GET p0 u0 true c).1.1 = Returned d ->
  truthy d = true ->
  let c1 := (fetchData t0 key GET p0 u0 true c).1.2 in
  (cache (store c1) !! key = Some d /\ cacheExpiration (store c1) !! key = Some t0) /\
  (t1 - t0 <= L ->
     fetchData t1 key GET p1 u1 keep1 c1 = (Returned d, c1, [])) /\
  (t1 - t0 > L ->
     exists tr,
       (fetchData t1 key GET p1 u1 keep1 c1).2 =
       EvCall key u1 (fetchFunction h u1 (world c1)).1 :: tr).
Proof.
  intros Hh HL Hmiss Hd Htruthy.
  rewrite (fetchData_fetched t0 key GET p0 u0 true c h Hmiss Hh) in *.
  pose proof (retryFetch_store key h (handler_argument GET p0 u0) 3 1000 c) as Hst.
  destruct (retryFetch _ 3 1000 c) as [[[data|e] cr] tr0]; cbn in Hst;
    [|cbn in Hd; inversion Hd; subst d; discriminate].
  destruct (truthy data) eqn:Ht;
    [|cbn in Hd; inversion Hd; subst data; congruence].
  destruct (broadcast cr _) as [[[]|e] ntr]; cbn [fst snd] in Hd;
    inversion Hd as [Hdd]; [subst data | subst d; discriminate].
  cbn zeta. cbn [fst snd].
  assert (Hhit : forall t,
            cache_hit (committed t0 key d true (store cr)) key t =
            if t - t0 <=? L then Some d else None).
  { intros t. rewrite cache_hit_committed, Hst, Hh. cbn [fmap option_fmap option_map].
    now rewrite or_zero_Some, HL. }
  split; [|split].
  - unfold committed. cbn. now rewrite !lookup_insert_eq.
  - intros Hfresh. apply fetchData_served. cbn. rewrite Hhit.
    destruct (Z.leb_spec (t1 - t0) L); [reflexivity | lia].
  - intros Hstale.
    apply (fetchData_first_call t1 key GET p1 u1 keep1
             (mkConfig (committed t0 key d true (store cr)) (world cr) (callbacks cr)) h).
    + cbn. rewrite Hhit. destruct (Z.leb_spec (t1 - t0) L); [lia | reflexivity].
    + unfold committed. cbn. now rewrite Hst.
Qed.

Lemma fetchData_freshness_witness :
  let c1 := (fetchData 100 "items" GET VNull (VStr "") true
               (Scenario.with_api Scenario.flaky 60000)).1.2 in
  fetchData 60100 "items" GET VNull (VStr "") true c1 =
  (Returned Scenario.records, c1, []).
Proof.
  refine (proj1 (proj2 (fetchData_freshness
            (Scenario.with_api Scenario.flaky 60000) "items"
            (mkAPIHandler Scenario.flaky 60000) 60000 100 60100
            VNull (VStr "") VNull (VStr "") true Scenario.records _ _ _ _ _)) _).
  - reflexivity.
  - reflexivity.
  - reflexivity.
  - vm_compute. reflexivity.
  - reflexivity.
  - lia.
Defined.

(** C3.  When [fetchData] goes to the handler of [key] and the handler
    rejects all three attempts, [fetchData] returns [null] and the store
    is exactly as before: the state at [key], the cache entry and its
    timestamp in particular.  No listener is notified. *)
Theorem fetchData_failure_atomic {W} (c : Config W) (now : Z) (key : string)
    (method : Method) (payload urlPath : Value) (keepCache : bool)
    (h : APIHandler W) (errs : list Exn) :
  served_from_cache (store c) key method now = None ->
  apiHandlers (store c) !! key = Some h ->
  call_outcomes (fetchFunction h) (handler_argument method payload urlPath)
    (world c) 3 = Thrown <$> errs ->
  let out := fetchData now key method payload urlPath keepCache c in
  out.1.1 = Returned VNull /\
  store out.1.2 = store c /\
  state (store out.1.2) !! key = state (store c) !! key /\
  cache (store out.1.2) !! key = cache (store c) !! key /\
  cacheExpiration (store out.1.2) !! key = cacheExpiration (store c) !! key /\
  Forall (fun e => is_notify e = false) out.2 /\
  invocations out.2 = 3%nat.
Proof.
  intros Hs Hh Hout out. unfold out.
  rewrite (fetchData_fetched now key method payload urlPath keepCache c h Hs Hh).
  set (arg := handler_argument method payload urlPath) in *.
  assert (Hlen : length errs = 3%nat).
  { apply (f_equal length) in Hout.
    now rewrite call_outcomes_length, length_fmap in Hout. }
  rewrite <- Hlen in Hout.
  destruct (retry_loop_exhaust key h arg 3 1000 errs 0 c) as [[e [_ Hres]] Hinv];
    [intros ->; discriminate | lia | exact Hout |].
  pose proof (retryFetch_store key h arg 3 1000 c) as Hst.
  pose proof (retry_loop_quiet key h arg 3 1000 0 c) as Hq.
  unfold retryFetch in *.
  destruct (retry_loop _ 3 1000 0 c) as [[res cr] tr].
  cbn [fst snd] in Hres, Hinv, Hst, Hq.
  subst res. cbn [fst snd]. rewrite Hst.
  repeat split; try reflexivity.
  - apply Forall_app. split; [exact Hq | repeat constructor].
  - rewrite invocations_app, Hinv, Hlen. reflexivity.
Qed.

Lemma fetchData_failure_atomic_witness :
  let c := Scenario.with_api Scenario.down 60000 in
  (fetchData 100 "items" POST (VObj [("name", VStr "C")]) (VStr "") true c).1.1 =
    Returned VNull /\
  store (fetchData 100 "items" POST (VObj [("name", VStr "C")]) (VStr "") true c).1.2 =
    store c.
Proof.
  pose proof (fetchData_failure_atomic (Scenario.with_api Scenario.down 60000)
                100 "items" POST (VObj [("name", VStr "C")]) (VStr "") true
                (mkAPIHandler Scenario.down 60000)
                [Rejected (VStr "down"); Rejected (VStr "down"); Rejected (VStr "down")]
                eq_refl eq_refl eq_refl) as H.
  cbn zeta in *. split; [exact (proj1 H) | exact (proj1 (proj2 H))].
Defined.

(** C7, as the code has it.  When the handler resolves (possibly after
    failed attempts) with a falsy value -- [null], [undefined], [false],
    [0] or the empty string -- [fetchData] returns that value as it is and
    leaves the store alone: no cache write, no state change, no
    notification. *)
Theorem fetchData_falsy_result {W} (c : Config W) (now : Z) (key : string)
    (method : Method) (payload urlPath : Value) (keepCache : bool)
    (h : APIHandler W) (errs : list Exn) (d : Value) :
  served_from_cache (store c) key method now = None ->
  apiHandlers (store c) !! key = Some h ->
  Z.of_nat (length errs) + 1 <= 3 ->
  call_outcomes (fetchFunction h) (handler_argument method payload urlPath)
    (world c) (S (length errs)) = (Thrown <$> errs) ++ [Returned d] ->
  truthy d = false ->
  let out := fetchData now key method payload urlPath keepCache c in
  out.1.1 = Returned d /\
  store out.1.2 = store c /\
  Forall (fun e => is_notify e = false) out.2.
Proof.
  intros Hs Hh Hle Hout Hfalsy out. unfold out.
  rewrite (fetchData_fetched now key method payload urlPath keepCache c h Hs Hh).
  set (arg := handler_argument method payload urlPath) in *.
  destruct (retry_loop_success key h arg 3 1000 errs 0 c d) as [Hres _];
    [lia | exact Hout |].
  pose proof (retryFetch_store key h arg 3 1000 c) as Hst.
  pose proof (retry_loop_quiet key h arg 3 1000 0 c) as Hq.
  unfold retryFetch in *.
  destruct (retry_loop _ 3 1000 0 c) as [[res cr] tr]. cbn in Hres, Hst, Hq.
  subst res. rewrite Hfalsy. cbn. auto.
Qed.

Lemma fetchData_falsy_result_witness :
  let c := Scenario.watched (Scenario.constant (VStr "")) 60000 in
  (fetchData 100 "items" GET VNull (VStr "") true c).1.1 = Returned (VStr "") /\
  store (fetchData 100 "items" GET VNull (VStr "") true c).1.2 = store c.
Proof.
  pose proof (fetchData_falsy_result
                (Scenario.watched (Scenario.constant (VStr "")) 60000)
                100 "items" GET VNull (VStr "") true
                (mkAPIHandler (Scenario.constant (VStr "")) 60000) [] (VStr "")
                eq_refl eq_refl) as H.
  cbn zeta in *. specialize (H ltac:(cbn; lia) eq_refl eq_refl).
  split; [exact (proj1 H) | exact (proj1 (proj2 H))].
Defined.

(** C7 as stated fails on an empty result: the empty array is truthy, so
    it is cached, stored in the state, broadcast, and returned as it is. *)
Lemma fetchData_empty_array_is_stored :
  let c := Scenario.watched (Scenario.constant (VArr [])) 60000 in
  let out := fetchData 100 "items" GET VNull (VStr "") true c in
  out.1.1 = Returned (VArr []) /\
  cache (store c) !! "items" = None /\
  cache (store out.1.2) !! "items" = Some (VArr []) /\
  cacheExpiration (store out.1.2) !! "items" = Some 100 /\
  state (store out.1.2) !! "items" = Some (VArr []) /\
  invocations out.2 = 1%nat /\
  List.filter is_notify out.2 = [EvNotify 1%nat {["items" := VArr []]}].
Proof. vm_compute. repeat split; reflexivity. Qed.

(** ** Records and the local edit *)

Section Records.

Implicit Types (k : string) (v : Value) (l : list (string * Value)).








End Records.

Section EditFacts.

Context {W : Type}.
Implicit Types (c : Config W) (key idKey : string).

Lemma mapM_pure {A B} (f : A -> M W B) (g : A -> B) (l : list A) c :
  Forall (fun x => forall c, f x c = (Returned (g x), c, [])) l ->
  mapM f l c = (Returned (g <$> l), c, []).
Proof.
  induction 1 as [|x l Hx _ IH]; [reflexivity|].
  cbn. unfold bind. rewrite Hx, IH. reflexivity.
Qed.



(** [editItem] on a sequence all of whose elements can be read: the
    state is replaced, then the listeners are called; the cache is
    written only if they all return. *)
Lemma editItem_run_readable key idKey id fields items c :
  state (store c) !! key = Some (VArr items) ->
  Forall (fun item => is_Some (get_prop item idKey)) items ->
  let updated := edit_one idKey id fields <$> items in
  let s1 := with_state (<[key := VArr updated]> (state (store c))) (store c) in
  editItem key idKey id fields c =
  match broadcast c s1 with
  | (Returned _, ntr) =>
      (Returned (mkEditResult true "Item edited successfully"),
       mkConfig (with_cache (<[key := VArr updated]> (cache (store c))) s1)
         (world c) (callbacks c),
       ntr)
  | (Thrown e, ntr) =>
      (Returned (mkEditResult false ("Error editing item: " +:+ exn_to_string e)),
       mkConfig s1 (world c) (callbacks c), ntr)
  end.
Proof.
  intros Hitems Hread. cbn zeta.
  unfold editItem, try_catch. unfold bind at 1. unfold get_store at 1. cbn [fst snd].
  rewrite Hitems. cbn [default from_option Datatypes.id truthy isArray negb orb].
  unfold bind at 1.
  rewrite (mapM_pure _ (edit_one idKey id fields)).
  - unfold bind at 1. rewrite setState_run. cbn [fst snd].
    rewrite <- insert_union_singleton_l.
    destruct (broadcast c _) as [[[]|e] ntr]; cbn; now rewrite ?app_nil_r.
  - eapply Forall_impl; [exact Hread|].
    intros item [field Hfield] c0. unfold bind, id_matches, edit_one.
    rewrite Hfield. reflexivity.
Qed.


End EditFacts.

(** ** The local edit *)




(** The example of the specification, run. *)
Example editItem_example :
  let out := editItem "items" "id" (VNum 5) (VObj [("name", VStr "X")])
               Scenario.local in
  state (store out.1.2) !! "items" =
    Some (VArr [VObj [("id", VNum 5); ("name", VStr "X")];
                VObj [("id", VNum 7); ("name", VStr "B")]]) /\
  cache (store out.1.2) !! "items" = state (store out.1.2) !! "items" /\
  out.1.1 = Returned (mkEditResult true "Item edited successfully").
Proof. vm_compute. repeat split; reflexivity. Qed.

(** ** What each operation does to the handlers, the cache and the timestamps *)

Section Frames.

Context {W : Type}.
Implicit Types (c : Config W) (key idKey : string).

Lemma bind_ret_run {A B} (m : M W A) (g : A -> B) c :
  (x ← m; ret (g x)) c =
  (match (m c).1.1 with Returned a => Returned (g a) | Thrown e => Thrown e end,
   (m c).1.2, (m c).2).
Proof.
  unfold bind, ret. destruct (m c) as [[[a|e] c1] tr]; cbn; [|reflexivity].
  now rewrite app_nil_r.
Qed.

Lemma bind_frame {A B} (m : M W A) (k : A -> M W B) c :
  (m c).1.2 = c /\ (m c).2 = [] ->
  (forall a, (k a c).1.2 = c /\ (k a c).2 = []) ->
  (bind m k c).1.2 = c /\ (bind m k c).2 = [].
Proof.
  intros [Hc Ht] Hk. unfold bind.
  destruct (m c) as [[[a|e] c1] tr1]; cbn in Hc, Ht; subst; [|now split].
  specialize (Hk a). destruct (k a c) as [[r c2] tr2]. exact Hk.
Qed.

Lemma mapM_frame {A B} (f : A -> M W B) (l : list A) c :
  (forall x c, (f x c).1.2 = c /\ (f x c).2 = []) ->
  (mapM f l c).1.2 = c /\ (mapM f l c).2 = [].
Proof.
  intros Hf. induction l as [|x l IH]; [now split|].
  cbn [mapM]. apply bind_frame; [apply Hf|].
  intros y. rewrite bind_ret_run. exact IH.
Qed.

Lemma filterM_frame {A} (f : A -> M W bool) (l : list A) c :
  (forall x c, (f x c).1.2 = c /\ (f x c).2 = []) ->
  (filterM f l c).1.2 = c /\ (filterM f l c).2 = [].
Proof.
  intros Hf. induction l as [|x l IH]; [now split|].
  cbn [filterM]. apply bind_frame; [apply Hf|].
  intros y. rewrite bind_ret_run. exact IH.
Qed.

(** The callback of [deleteItem] and [editItem] reads only. *)
Lemma callback_frame {B} idKey id (g : Value -> bool -> B) item c :
  ((same ← id_matches (W:=W) idKey id item; ret (g item same)) c).1.2 = c /\
  ((same ← id_matches (W:=W) idKey id item; ret (g item same)) c).2 = [].
Proof.
  rewrite bind_ret_run. unfold id_matches. now destruct (get_prop item idKey).
Qed.

Lemma bind_setState_frame {A} (m : M W A) (f : A -> gmap string Value) c :
  (m c).1.2 = c ->
  exists st, store (bind m (fun a => setState (f a)) c).1.2 = with_state st (store c).
Proof.
  intros Hc. unfold bind. destruct (m c) as [[[a|e] c1] tr1]; cbn in Hc; subst c1.
  - rewrite setState_run. cbn. eauto.
  - cbn. exists (state (store c)). now destruct (store c).
Qed.

(** [deleteItem] only ever replaces the state. *)
Lemma deleteItem_frame key idKey id c :
  exists st, store (deleteItem key idKey id c).1.2 = with_state st (store c).
Proof.
  assert (Hsame : exists st, store c = with_state st (store c)).
  { exists (state (store c)). now destruct (store c). }
  unfold deleteItem. destruct (truthy id); cbn [negb]; [|exact Hsame].
  unfold getState. unfold bind at 1 2. unfold get_store at 1. cbn [fst snd ret].
  match goal with |- context [bind ?m ?k c] =>
    destruct (bind_setState_frame m (fun u => {[key := u]}) c) as [st Hst];
      [|exists st; cbv beta in Hst; destruct (bind m k c) as [[r c2] tr2]; exact Hst]
  end.
  destruct (default VUndefined (state (store c) !! key)) as [| | | | |items|];
    try reflexivity.
  rewrite bind_ret_run. cbn [fst snd].
  apply filterM_frame. intros x c0.
  apply (callback_frame idKey id (fun _ same => negb same)).
Qed.

(** [editItem] writes the state, and the cache at [key] when it succeeds. *)
Lemma editItem_frame key idKey id fields c :
  exists st,
    store (editItem key idKey id fields c).1.2 = with_state st (store c) \/
    exists v,
      (editItem key idKey id fields c).1.1 =
        Returned (mkEditResult true "Item edited successfully") /\
      store (editItem key idKey id fields c).1.2 =
        with_cache (<[key := v]> (cache (store c))) (with_state st (store c)).
Proof.
  assert (Hsame : store c = with_state (state (store c)) (store c)).
  { now destruct (store c). }
  remember (editItem key idKey id fields c) as out eqn:Hout.
  unfold editItem, try_catch in Hout. unfold bind at 1 in Hout.
  unfold get_store at 1 in Hout. cbn [fst snd] in Hout.
  destruct (negb (truthy (default VUndefined (state (store c) !! key)))
            || negb (isArray (default VUndefined (state (store c) !! key)))).
  { subst out. cbn. eauto. }
  destruct (default VUndefined (state (store c) !! key)) as [| | | | |items|];
    try (subst out; cbn; now eauto).
  unfold bind at 1 in Hout.
  destruct (mapM_frame
              (fun item => same ← id_matches idKey id item;
                           ret (if same : bool then spread2 item fields else item))
              items c) as [Hc Ht].
  { intros x c0.
    apply (callback_frame idKey id
             (fun item (same : bool) => if same then spread2 item fields else item)). }
  destruct (mapM _ items c) as [[[updated|e] c1] tr1]; cbn in Hc, Ht; subst c1 tr1.
  - unfold bind at 1 in Hout. rewrite setState_run in Hout.
    destruct (broadcast c _) as [[[]|e] ntr]; subst out; cbn.
    + eexists. right. eexists. split; reflexivity.
    + eauto.
  - subst out. cbn. eauto.
Qed.

(** [fetchData] writes the cache and the timestamp of [key] together, and
    only with [keepCache] after the handler of [key] resolved with a
    truthy value. *)
Lemma fetchData_frame now key method payload urlPath keepCache c :
  let out := fetchData now key method payload urlPath keepCache c in
  apiHandlers (store out.1.2) = apiHandlers (store c) /\
  ((cache (store out.1.2) = cache (store c) /\
    cacheExpiration (store out.1.2) = cacheExpiration (store c)) \/
   (keepCache = true /\
    is_Some (apiHandlers (store c) !! key) /\
    existsb (resolved_truthy key) out.2 = true /\
    exists data,
      cache (store out.1.2) = <[key := data]> (cache (store c)) /\
      cacheExpiration (store out.1.2) = <[key := now]> (cacheExpiration (store c)))).
Proof.
  cbn zeta.
  destruct (served_from_cache (store c) key method now) as [v|] eqn:Hs.
  { rewrite (fetchData_served _ _ _ _ _ _ _ _ Hs). cbn. auto. }
  destruct (apiHandlers (store c) !! key) as [h|] eqn:Hh.
  2:{ rewrite (fetchData_unregistered _ _ _ _ _ _ _ Hs Hh). cbn. auto. }
  rewrite (fetchData_fetched _ _ _ _ _ _ _ _ Hs Hh).
  set (arg := handler_argument method payload urlPath).
  pose proof (retryFetch_store key h arg 3 1000 c) as Hst.
  pose proof (retry_loop_returned key h arg 3 1000 0 c) as Hret.
  unfold retryFetch in *.
  destruct (retry_loop _ 3 1000 0 c) as [[[data|e] cr] tr1];
    cbn [fst snd] in Hst, Hret; [|cbn; rewrite Hst; auto].
  destruct (truthy data) eqn:Ht; [|cbn; rewrite Hst; auto].
  assert (Hev : forall ntr, existsb (resolved_truthy key) (tr1 ++ ntr) = true).
  { intros ntr. apply existsb_exists. exists (EvCall key arg (Returned data)). split.
    - apply list_elem_of_In, elem_of_app. left. now apply Hret.
    - cbn. now rewrite String.eqb_refl, Ht. }
  destruct (broadcast cr _) as [[[]|e] ntr]; cbn [fst snd store];
    unfold committed; rewrite Hst;
    (destruct keepCache; cbn [apiHandlers cache cacheExpiration with_state
                               with_cache with_cacheExpiration]; [|auto]);
    (split; [reflexivity|]); right; (split; [reflexivity|]); (split; [eauto|]);
    (split; [|eauto]).
  - apply Hev.
  - rewrite <- app_assoc. apply Hev.
Qed.

End Frames.

(** ** Invariants of the reachable configurations *)

Section Invariants.

Context {W : Type}.
Implicit Types (c : Config W) (key : string) (hist : list (Step W)).

(** One operation: handlers are never removed; a new timestamp comes with a
    cached fetch of a registered key; a new cache value comes with a cached
    fetch or with a local edit. *)
Lemma exec_op_step (op : Op W) c a c' tr :
  exec_op op c = (a, c', tr) ->
  (forall k, is_Some (apiHandlers (store c) !! k) ->
             is_Some (apiHandlers (store c') !! k)) /\
  (forall k, is_Some (cacheExpiration (store c') !! k) ->
             is_Some (cacheExpiration (store c) !! k) \/
             (is_Some (apiHandlers (store c') !! k) /\
              cached_fetch k (mkStep op a tr) = true)) /\
  (forall k, is_Some (cache (store c') !! k) ->
             is_Some (cache (store c) !! k) \/
             cached_fetch k (mkStep op a tr) = true \/
             local_edit k (mkStep op a tr) = true).
Proof.
  intros Hrun.
  destruct op as [init | key f d | key | l | l | st
                 | now key method payload urlPath keepCache
                 | key idKey id | key idKey id fields];
    cbn [exec_op] in Hrun; rewrite bind_ret_run in Hrun;
    inversion Hrun as [[Ha Hc Ht]]; clear Hrun; subst a c' tr.
  - cbn. auto.
  - destruct f as [f|]; cbn; [|auto].
    split; [|auto]. intros k Hk. apply lookup_insert_is_Some'. now right.
  - unfold clearCache, bind, get_store. cbn [fst snd].
    destruct key as [key|]; [destruct (negb (String.eqb key ""))|]; cbn;
      (split; [auto|]); split; intros k Hk;
      rewrite ?lookup_empty in Hk; try (now destruct Hk as [? [=]]);
      left; apply lookup_delete_is_Some in Hk; tauto.
  - unfold subscribe, bind, get_store. cbn [fst snd].
    destruct (bool_decide _); cbn; auto.
  - cbn. auto.
  - rewrite setState_run. cbn. auto.
  - destruct (fetchData_frame now key method payload urlPath keepCache c)
      as [Hh [[Hca Hex]|[-> [Hreg [Hev [data [Hca Hex]]]]]]].
    + rewrite Hh, Hca, Hex. auto.
    + assert (Hcf : forall a0, cached_fetch key
                      (mkStep (OpFetchData (W:=W) now key method payload urlPath true)
                         a0 (fetchData now key method payload urlPath true c).2) = true).
      { intros a0. unfold cached_fetch. cbn [step_op step_events].
        now rewrite String.eqb_refl, Hev. }
      rewrite Hh, Hca, Hex.
      split; [auto|]. split; intros k Hin;
        apply lookup_insert_is_Some' in Hin as [<-|Hin]; auto.
  - destruct (deleteItem_frame key idKey id c) as [st ->]. cbn. auto.
  - destruct (editItem_frame key idKey id fields c) as [st [->|[v [Hres ->]]]];
      cbn; [auto|].
    split; [auto|]. split; [auto|]. intros k Hin.
    apply lookup_insert_is_Some' in Hin as [<-|Hin]; [|auto].
    right. right. unfold local_edit. cbn. rewrite Hres. cbn.
    now rewrite String.eqb_refl.
Qed.

Lemma reachable_invariant c hist :
  reachable c hist ->
  (forall k, is_Some (cacheExpiration (store c) !! k) ->
             is_Some (apiHandlers (store c) !! k) /\
             Exists (fun st => cached_fetch k st = true) hist) /\
  (forall k, is_Some (cache (store c) !! k) ->
             Exists (fun st => cached_fetch k st = true) hist \/
             Exists (fun st => local_edit k st = true) hist).
Proof.
  induction 1 as [w cb | c hist w _ IH | c hist op a c' tr _ [IHt IHc] Hrun].
  - cbn. split; intros k Hk; rewrite lookup_empty in Hk; now destruct Hk as [? [=]].
  - exact IH.
  - destruct (exec_op_step op c a c' tr Hrun) as [Hh [Ht Hc]].
    split; intros k Hk.
    + destruct (Ht k Hk) as [Hold|[Hreg Hcf]].
      * destruct (IHt k Hold) as [Hreg Hex]. split; [now apply Hh|].
        now apply Exists_cons_tl.
      * split; [exact Hreg|]. now apply Exists_cons_hd.
    + destruct (Hc k Hk) as [Hold|[Hcf|Hed]].
      * destruct (IHc k Hold) as [Hex|Hex]; [left | right];
          now apply Exists_cons_tl.
      * left. now apply Exists_cons_hd.
      * right. now apply Exists_cons_hd.
Qed.

End Invariants.

Lemma run_ops_reachable {W} (ops : list (Op W)) :
  forall c hist,
    reachable c hist ->
    reachable (run_ops ops c hist).1 (run_ops ops c hist).2.
Proof.
  induction ops as [|op ops IH]; intros c hist Hr; [exact Hr|].
  cbn. destruct (exec_op op c) as [[a c'] tr] eqn:Hrun.
  apply IH. now apply (reach_op c hist op a c' tr).
Qed.

(** ** Claims about the reachable configurations *)

(** C8.  In a reachable configuration, for a key with no registered
    handler, [fetchData] with any method returns [null] and leaves the
    configuration as it is -- no state change, no cache write, no
    notification; the only event is the console message. *)
Theorem fetchData_no_handler {W} (c : Config W) (hist : list (Step W))
    (key : string) (now : Z) (method : Method) (payload urlPath : Value)
    (keepCache : bool) :
  reachable c hist ->
  apiHandlers (store c) !! key = None ->
  fetchData now key method payload urlPath keepCache c =
  (Returned VNull, c, [EvLog ("No API registered for key: " +:+ key) None]).
Proof.
  intros Hr Hnone. apply fetchData_unregistered; [|exact Hnone].
  destruct method; cbn; try reflexivity.
  destruct (cache_hit (store c) key now) as [v|] eqn:Hhit; [|reflexivity].
  apply cache_hit_timestamp in Hhit.
  destruct (proj1 (reachable_invariant c hist Hr) key Hhit) as [[h Hh] _].
  congruence.
Qed.

Lemma fetchData_no_handler_witness :
  fetchData 100 "items" GET VNull (VStr "") true Scenario.local =
    (Returned VNull, Scenario.local,
     [EvLog "No API registered for key: items" None]) /\
  fetchData 100 "items" POST (VObj [("name", VStr "C")]) VUndefined true Scenario.local =
    (Returned VNull, Scenario.local,
     [EvLog "No API registered for key: items" None]).
Proof.
  assert (Hr : reachable Scenario.local
                 (run_ops Scenario.local_session Scenario.fresh []).2).
  { apply (run_ops_reachable Scenario.local_session Scenario.fresh []).
    apply reach_new. }
  split.
  - apply (fetchData_no_handler Scenario.local _ "items" 100 GET VNull (VStr "") true Hr).
    reflexivity.
  - apply (fetchData_no_handler Scenario.local _ "items" 100 POST
             (VObj [("name", VStr "C")]) VUndefined true Hr).
    reflexivity.
Defined.

(** C6.  In a reachable configuration a cache entry -- a cached value with
    its timestamp -- exists for a key only if the history holds a fetch of
    that key with caching enabled in which the handler resolved with a
    truthy value.  Every operation preserves this: after any operation an
    entry still comes with such a fetch in the history, the operation just
    run included; and the local edit and the local deletion bring no entry
    to a key that has not been fetched so. *)
Theorem cache_entry_after_cached_fetch {W} (c : Config W) (hist : list (Step W))
    (key : string) :
  reachable c hist ->
  (cache_entry (store c) key ->
   Exists (fun st => cached_fetch key st = true) hist) /\
  (forall op a c' tr,
     exec_op op c = (a, c', tr) ->
     cache_entry (store c') key ->
     Exists (fun st => cached_fetch key st = true) (mkStep op a tr :: hist)) /\
  (forall k idKey id fields,
     cache_entry (store (editItem k idKey id fields c).1.2) key ->
     Exists (fun st => cached_fetch key st = true) hist) /\
  (forall k idKey id,
     cache_entry (store (deleteItem k idKey id c).1.2) key ->
     Exists (fun st => cached_fetch key st = true) hist).
Proof.
  intros Hr.
  assert (Hinv : forall (c0 : Config W) (hist0 : list (Step W)), reachable c0 hist0 ->
            is_Some (cacheExpiration (store c0) !! key) ->
            Exists (fun st => cached_fetch key st = true) hist0).
  { intros c0 hist0 Hr0 Hk. now apply (proj1 (reachable_invariant c0 hist0 Hr0)). }
  split; [|split; [|split]].
  - intros [_ Hk]. now apply (Hinv c hist).
  - intros op a c' tr Hrun [_ Hk].
    apply (Hinv c'); [|exact Hk]. now apply (reach_op c hist op a c' tr).
  - intros k idKey id fields [_ Hk]. apply (Hinv c hist Hr).
    destruct (editItem_frame k idKey id fields c) as [st [Hst|[v [_ Hst]]]];
      rewrite Hst in Hk; exact Hk.
  - intros k idKey id [_ Hk]. apply (Hinv c hist Hr).
    destruct (deleteItem_frame k idKey id c) as [st Hst].
    rewrite Hst in Hk. exact Hk.
Qed.

Lemma cache_entry_after_cached_fetch_witness :
  cache_entry (store Session.fetched.1) "items" /\
  Exists (fun st => cached_fetch "items" st = true) Session.fetched.2.
Proof.
  assert (Hentry : cache_entry (store Session.fetched.1) "items").
  { split; vm_compute; eexists; reflexivity. }
  split; [exact Hentry|].
  refine (proj1 (cache_entry_after_cached_fetch
                   Session.fetched.1 Session.fetched.2 "items" _) Hentry).
  apply (run_ops_reachable Session.fetch_session Scenario.fresh []).
  apply reach_new.
Defined.



(** C10.  In a reachable configuration: [fetchData] serves a cached value
    only for a key that has a timestamp; a key has a timestamp only if the
    history holds a successful fetch of it with caching enabled; so for a
    key without such a fetch -- whatever a local edit wrote in the cache --
    a [GET] never returns from the cache: it goes to the handler, or
    reports that there is none. *)
Theorem cache_served_only_after_cached_fetch {W} (c : Config W)
    (hist : list (Step W)) (key : string) :
  reachable c hist ->
  (forall now v,
     served_from_cache (store c) key GET now = Some v ->
     is_Some (cacheExpiration (store c) !! key)) /\
  (is_Some (cacheExpiration (store c) !! key) ->
     Exists (fun st => cached_fetch key st = true) hist) /\
  (Forall (fun st => cached_fetch key st = false) hist ->
   forall now payload urlPath keepCache,
     served_from_cache (store c) key GET now = None /\
     exists e tr,
       (fetchData now key GET payload urlPath keepCache c).2 = e :: tr /\
       (e = EvLog ("No API registered for key: " +:+ key) None \/
        exists h, apiHandlers (store c) !! key = Some h /\
                  e = EvCall key urlPath (fetchFunction h urlPath (world c)).1)).
Proof.
  intros Hr.
  assert (Hts : forall now v,
            served_from_cache (store c) key GET now = Some v ->
            is_Some (cacheExpiration (store c) !! key)).
  { intros now v Hs. now apply (cache_hit_timestamp (store c) key now v). }
  assert (Hfetch : is_Some (cacheExpiration (store c) !! key) ->
                   Exists (fun st => cached_fetch key st = true) hist).
  { intros Hk. now apply (proj1 (reachable_invariant c hist Hr)). }
  split; [exact Hts|]. split; [exact Hfetch|].
  intros Hnone now payload urlPath keepCache.
  assert (Hmiss : served_from_cache (store c) key GET now = None).
  { destruct (served_from_cache (store c) key GET now) as [v|] eqn:Hs; [|reflexivity].
    apply Hts, Hfetch, Exists_exists in Hs as [st [Hin Hst]].
    rewrite Forall_forall in Hnone. specialize (Hnone st Hin). congruence. }
  split; [exact Hmiss|].
  destruct (apiHandlers (store c) !! key) as [h|] eqn:Hh.
  - destruct (fetchData_first_call now key GET payload urlPath keepCache c h Hmiss Hh)
      as [tr Htr].
    unfold handler_argument in Htr. cbn [is_write] in Htr.
    exists (EvCall key urlPath (fetchFunction h urlPath (world c)).1), tr.
    split; [exact Htr | right; eauto].
  - rewrite (fetchData_unregistered now key GET payload urlPath keepCache c Hmiss Hh).
    cbn. eauto.
Qed.

Lemma cache_served_only_after_cached_fetch_witness :
  served_from_cache (store Scenario.offline.1) "items" GET 100 = None /\
  exists e tr,
    (fetchData 100 "items" GET VNull (VStr "") true Scenario.offline.1).2 = e :: tr /\
    (e = EvLog "No API registered for key: items" None \/
     exists h, apiHandlers (store Scenario.offline.1) !! "items" = Some h /\
               e = EvCall "items" (VStr "")
                     (fetchFunction h (VStr "") (world Scenario.offline.1)).1).
Proof.
  refine (proj2 (proj2 (cache_served_only_after_cached_fetch
                          Scenario.offline.1 Scenario.offline.2 "items" _))
            _ 100 VNull (VStr "") true).
  - apply (run_ops_reachable Scenario.offline_session Scenario.fresh []).
    apply reach_new.
  - vm_compute. repeat constructor.
Defined.

(** * Further properties of the code *)

(** ** The retry wrapper: effort *)

Section RetryEffort.

Context {W : Type}.
Implicit Types (c : Config W) (key : string) (h : APIHandler W).

Lemma total_sleep_app tr1 tr2 :
  total_sleep (tr1 ++ tr2) = total_sleep tr1 + total_sleep tr2.
Proof.
  induction tr1 as [|e tr1 IH]; [reflexivity|].
  destruct e; cbn; rewrite IH; lia.
Qed.

Lemma pow2_step a : 0 <= a -> 2 ^ (a + 1 + 1) = 2 * 2 ^ (a + 1).
Proof.
  intros Ha. replace (a + 1 + 1) with (Z.succ (a + 1)) by lia.
  apply Z.pow_succ_r. lia.
Qed.

Lemma pow2_mono a b : 0 <= a <= b -> 0 < 2 ^ a <= 2 ^ b.
Proof.
  intros Hab. split; [apply Z.pow_pos_nonneg; lia|].
  apply Z.pow_le_mono_r; lia.
Qed.

(** From [a] failed attempts on, with attempts left. *)
Lemma retry_loop_effort key h arg retries delay :
  0 <= delay ->
  forall a c,
    0 <= a < retries ->
    let out := retry_loop (call_handler key h arg) retries delay a c in
    ((1 <= invocations out.2)%nat /\ Z.of_nat (invocations out.2) <= retries - a) /\
    (0 <= total_sleep out.2 <= delay * (2 ^ retries - 2 ^ (a + 1))) /\
    (exists r, last out.2 = Some (EvCall key arg r)) /\
    (forall e, out.1.1 = Thrown e ->
       Z.of_nat (invocations out.2) = retries - a /\
       total_sleep out.2 = delay * (2 ^ retries - 2 ^ (a + 1))).
Proof.
  intros Hdelay a c.
  apply (retry_loop_cases (call_handler key h arg) retries delay
           (fun a _ out =>
              0 <= a < retries ->
              ((1 <= invocations out.2)%nat /\
               Z.of_nat (invocations out.2) <= retries - a) /\
              (0 <= total_sleep out.2 <= delay * (2 ^ retries - 2 ^ (a + 1))) /\
              (exists r, last out.2 = Some (EvCall key arg r)) /\
              (forall e, out.1.1 = Thrown e ->
                 Z.of_nat (invocations out.2) = retries - a /\
                 total_sleep out.2 = delay * (2 ^ retries - 2 ^ (a + 1)))));
    clear a c.
  - intros a c Hge Ha. lia.
  - intros a c v c1 tr1 _ Hf Ha. rewrite call_handler_run in Hf.
    inversion Hf; subst. cbn.
    pose proof (pow2_mono (a + 1) retries ltac:(lia)).
    split; [lia|]. split; [nia|]. split; [eauto|].
    intros e He. congruence.
  - intros a c e c1 tr1 _ Hf Hlast Ha. rewrite call_handler_run in Hf.
    inversion Hf; subst. cbn.
    split; [lia|]. split; [lia|]. split; [eauto|].
    intros e0 _. split; lia.
  - intros a c e c1 tr1 res c2 tr2 _ Hf Hne _ IH Ha.
    rewrite call_handler_run in Hf. inversion Hf; subst. clear Hf.
    destruct IH as [[Hi1 Hi2] [[Hs1 Hs2] [[r Hr] Hthrown]]]; [lia|].
    cbn [fst snd] in *.
    pose proof (pow2_step a ltac:(lia)) as Hp.
    pose proof (pow2_mono (a + 1) retries ltac:(lia)) as Hm.
    change ([EvCall key arg (fetchFunction h arg (world c)).1] ++
            EvSleep (delay * 2 ^ (a + 1)) :: tr2)
      with (EvCall key arg (fetchFunction h arg (world c)).1 ::
            EvSleep (delay * 2 ^ (a + 1)) :: tr2).
    assert (Hinv : invocations
              (EvCall key arg (fetchFunction h arg (world c)).1 ::
               EvSleep (delay * 2 ^ (a + 1)) :: tr2) = S (invocations tr2))
      by reflexivity.
    assert (Htot : total_sleep
              (EvCall key arg (fetchFunction h arg (world c)).1 ::
               EvSleep (delay * 2 ^ (a + 1)) :: tr2) =
              delay * 2 ^ (a + 1) + total_sleep tr2) by reflexivity.
    rewrite Hinv, Htot.
    split; [lia|]. split; [nia|]. split.
    + exists r. destruct tr2 as [|e2 tr2]; [discriminate|]. exact Hr.
    + intros e0 He0. destruct (Hthrown e0 He0) as [Hn Ht]. split; [lia | nia].
Qed.

End RetryEffort.

(** X1.  With [retries >= 1] and a non-negative [delay], a run of
    [retryFetch] calls the handler at least once and at most [retries]
    times, sleeps at most [delay * (2 ^ retries - 2)] in total, and ends
    on a handler call (no sleep follows the last attempt).  If it throws,
    it has made exactly [retries] calls and slept exactly that total. *)
Theorem retryFetch_effort {W} (key : string) (h : APIHandler W) (arg : Value)
    (retries delay : Z) (c : Config W) :
  0 <= delay ->
  1 <= retries ->
  let out := retryFetch (call_handler key h arg) retries delay c in
  ((1 <= invocations out.2)%nat /\ Z.of_nat (invocations out.2) <= retries) /\
  (0 <= total_sleep out.2 <= delay * (2 ^ retries - 2)) /\
  (exists r, last out.2 = Some (EvCall key arg r)) /\
  (forall e, out.1.1 = Thrown e ->
     Z.of_nat (invocations out.2) = retries /\
     total_sleep out.2 = delay * (2 ^ retries - 2)).
Proof.
  intros Hdelay Hretries.
  pose proof (retry_loop_effort key h arg retries delay Hdelay 0 c ltac:(lia)) as H.
  cbn zeta in *. unfold retryFetch.
  replace (retries - 0) with retries in H by lia.
  change (2 ^ (0 + 1)) with 2 in H. exact H.
Qed.

Lemma retryFetch_effort_witness :
  total_sleep
    (retryFetch (call_handler "items" (mkAPIHandler Scenario.down 60000) VNull)
       3 1000 Scenario.fresh).2 = 6000.
Proof.
  pose proof (retryFetch_effort "items" (mkAPIHandler Scenario.down 60000) VNull
                3 1000 Scenario.fresh ltac:(lia) ltac:(lia)) as H.
  cbn zeta in H. destruct H as [_ [_ [_ H]]].
  exact (proj2 (H (Rejected (VStr "down")) eq_refl)).
Defined.

(** ** [fetchData]: effort, success, writes *)

Section FetchMore.

Context {W : Type}.
Implicit Types (c : Config W) (key : string) (h : APIHandler W) (s : Store W).

Lemma broadcast_no_calls c s : invocations (broadcast c s).2 = 0%nat.
Proof. apply notify_each_quiet. Qed.

Lemma broadcast_no_sleep c s : total_sleep (broadcast c s).2 = 0.
Proof.
  unfold broadcast. induction (listeners s) as [|l ls IH]; [reflexivity|].
  cbn. destruct (callbacks c l (state s)); [reflexivity|].
  destruct (notify_each _ _ ls) as [r tr]. exact IH.
Qed.

Lemma broadcast_only_notify c s :
  List.filter is_notify (broadcast c s).2 = (broadcast c s).2.
Proof. apply notify_each_quiet. Qed.

Lemma quiet_filter tr :
  Forall (fun e => is_notify e = false) tr -> List.filter is_notify tr = [].
Proof.
  induction 1 as [|e tr He _ IH]; [reflexivity|]. cbn. now rewrite He.
Qed.

(** The store after [fetchData]: untouched, or holding the accepted data. *)
Lemma fetchData_store_cases now key method payload urlPath keepCache c :
  store (fetchData now key method payload urlPath keepCache c).1.2 = store c \/
  exists data,
    truthy data = true /\
    store (fetchData now key method payload urlPath keepCache c).1.2 =
      committed now key data keepCache (store c).
Proof.
  destruct (served_from_cache (store c) key method now) as [v|] eqn:Hs.
  { rewrite (fetchData_served _ _ _ _ _ _ _ _ Hs). now left. }
  destruct (apiHandlers (store c) !! key) as [h|] eqn:Hh.
  2:{ rewrite (fetchData_unregistered _ _ _ _ _ _ _ Hs Hh). now left. }
  rewrite (fetchData_fetched _ _ _ _ _ _ _ _ Hs Hh).
  pose proof (retryFetch_store key h (handler_argument method payload urlPath)
                3 1000 c) as Hst.
  destruct (retryFetch _ 3 1000 c) as [[[data|e] cr] tr1]; cbn [fst snd] in Hst;
    [|now left].
  destruct (truthy data) eqn:Ht; [|now left].
  right. exists data.
  destruct (broadcast cr _) as [[[]|e] ntr]; cbn [fst snd store]; now rewrite Hst.
Qed.

End FetchMore.

(** X2.  [fetchData] never throws: whatever the store, the handler and the
    arguments, it returns a value, having called the handler at most three
    times and slept at most 6000 ms. *)
Theorem fetchData_completes {W} (c : Config W) (now : Z) (key : string)
    (method : Method) (payload urlPath : Value) (keepCache : bool) :
  let out := fetchData now key method payload urlPath keepCache c in
  (exists v, out.1.1 = Returned v) /\
  (invocations out.2 <= 3)%nat /\
  0 <= total_sleep out.2 <= 6000.
Proof.
  cbn zeta.
  destruct (served_from_cache (store c) key method now) as [v|] eqn:Hs.
  { rewrite (fetchData_served _ _ _ _ _ _ _ _ Hs). cbn. split; [eauto | lia]. }
  destruct (apiHandlers (store c) !! key) as [h|] eqn:Hh.
  2:{ rewrite (fetchData_unregistered _ _ _ _ _ _ _ Hs Hh). cbn.
      split; [eauto | lia]. }
  rewrite (fetchData_fetched _ _ _ _ _ _ _ _ Hs Hh).
  pose proof (retry_loop_effort key h (handler_argument method payload urlPath)
                3 1000 ltac:(lia) 0 c ltac:(lia)) as Heff.
  cbn zeta in Heff. unfold retryFetch.
  destruct (retry_loop _ 3 1000 0 c) as [[[data|e] cr] tr1]; cbn [fst snd] in Heff;
    destruct Heff as [[_ Hinv] [[Hs0 Hs1] _]]; change (2 ^ 3 - 2 ^ (0 + 1)) with 6 in Hs1.
  - destruct (truthy data); cbn [fst snd].
    + pose proof (broadcast_no_calls cr (committed now key data keepCache (store cr)))
        as Hnc.
      pose proof (broadcast_no_sleep cr (committed now key data keepCache (store cr)))
        as Hns.
      destruct (broadcast cr _) as [[[]|e] ntr]; cbn [fst snd] in *;
        rewrite ?invocations_app, ?total_sleep_app, Hnc, Hns; cbn;
        (split; [eauto | lia]).
    + split; [eauto | lia].
  - cbn [fst snd]. rewrite invocations_app, total_sleep_app. cbn.
    split; [eauto | lia].
Qed.

(** X3.  When [fetchData] goes to the handler and the handler resolves,
    within the three attempts, with a truthy value [d]: the state holds
    [d] at [key] and is otherwise unchanged; with [keepCache] the cache
    holds [d] and the timestamp [now] at [key], without it the cache and
    the timestamps are exactly as before.  Then the listeners are called
    in turn with the new state.  If none throws, each is notified exactly
    once and [fetchData] returns [d].  If one throws, the listeners behind
    it are not called, the exception is caught and logged, and
    [fetchData] returns [null] although the state and the cache have
    been written. *)
Theorem fetchData_success {W} (c : Config W) (now : Z) (key : string)
    (method : Method) (payload urlPath : Value) (keepCache : bool)
    (h : APIHandler W) (errs : list Exn) (d : Value) :
  served_from_cache (store c) key method now = None ->
  apiHandlers (store c) !! key = Some h ->
  Z.of_nat (length errs) + 1 <= 3 ->
  call_outcomes (fetchFunction h) (handler_argument method payload urlPath)
    (world c) (S (length errs)) = (Thrown <$> errs) ++ [Returned d] ->
  truthy d = true ->
  let out := fetchData now key method payload urlPath keepCache c in
  let s' := store out.1.2 in
  let st' := <[key := d]> (state (store c)) in
  state s' = st' /\
  listeners s' = listeners (store c) /\
  apiHandlers s' = apiHandlers (store c) /\
  (if keepCache
   then cache s' = <[key := d]> (cache (store c)) /\
        cacheExpiration s' = <[key := now]> (cacheExpiration (store c))
   else cache s' = cache (store c) /\
        cacheExpiration s' = cacheExpiration (store c)) /\
  (listeners_accept c st' ->
     out.1.1 = Returned d /\
     List.filter is_notify out.2 = (fun l => EvNotify l st') <$> listeners (store c)) /\
  (forall before l after e,
     listener_throws c st' before l after e ->
     out.1.1 = Returned VNull /\
     List.filter is_notify out.2 = (fun l => EvNotify l st') <$> (before ++ [l]) /\
     last out.2 = Some (EvLog "API call error:" (Some e))).
Proof.
  intros Hs Hh Hle Hout Htruthy. cbn zeta.
  rewrite (fetchData_fetched now key method payload urlPath keepCache c h Hs Hh).
  set (arg := handler_argument method payload urlPath) in *.
  destruct (retry_loop_success key h arg 3 1000 errs 0 c d) as [Hres _];
    [lia | exact Hout |].
  pose proof (retryFetch_store key h arg 3 1000 c) as Hst.
  pose proof (retry_loop_quiet key h arg 3 1000 0 c) as Hq.
  pose proof (retry_loop_callbacks key h arg 3 1000 0 c) as Hcb.
  unfold retryFetch in *.
  destruct (retry_loop _ 3 1000 0 c) as [[res cr] tr].
  cbn [fst snd] in Hres, Hst, Hq, Hcb. subst res. rewrite Htruthy.
  rewrite (broadcast_committed c cr now key d keepCache Hst Hcb).
  assert (Hfields :
    state (committed now key d keepCache (store cr)) = <[key := d]> (state (store c)) /\
    listeners (committed now key d keepCache (store cr)) = listeners (store c) /\
    apiHandlers (committed now key d keepCache (store cr)) = apiHandlers (store c) /\
    (if keepCache
     then cache (committed now key d keepCache (store cr)) =
            <[key := d]> (cache (store c)) /\
          cacheExpiration (committed now key d keepCache (store cr)) =
            <[key := now]> (cacheExpiration (store c))
     else cache (committed now key d keepCache (store cr)) = cache (store c) /\
          cacheExpiration (committed now key d keepCache (store cr)) =
            cacheExpiration (store c))).
  { rewrite Hst. unfold committed.
    destruct keepCache; cbn; rewrite <- insert_union_singleton_l; auto. }
  destruct Hfields as [H1 [H2 [H3 H4]]].
  pose proof (notify_each_quiet (callbacks c) (<[key := d]> (state (store c)))
                (listeners (store c))) as [_ Hnq].
  destruct (notify_each (callbacks c) (<[key := d]> (state (store c)))
              (listeners (store c))) as [[[]|e] ntr] eqn:Hne;
    cbn [fst snd store] in *;
    (split; [exact H1|]); (split; [exact H2|]); (split; [exact H3|]);
    (split; [exact H4|]); split.
  - intros Hacc. rewrite (notify_each_listeners_accept c _ Hacc) in Hne.
    inversion Hne; subst ntr. split; [reflexivity|].
    now rewrite List.filter_app, (quiet_filter tr Hq).
  - intros before l after e Hthrow.
    rewrite (notify_each_listener_throws c _ before l after e Hthrow) in Hne.
    discriminate.
  - intros Hacc. rewrite (notify_each_listeners_accept c _ Hacc) in Hne.
    discriminate.
  - intros before l after e' Hthrow.
    rewrite (notify_each_listener_throws c _ before l after e' Hthrow) in Hne.
    inversion Hne; subst e' ntr. split; [reflexivity|]. split.
    + rewrite !List.filter_app, (quiet_filter tr Hq), Hnq. cbn.
      now rewrite app_nil_r.
    + apply last_snoc.
Qed.

Lemma fetchData_success_witness :
  (let out := fetchData 100 "items" POST (VObj [("name", VStr "C")]) (VStr "") false
                (Scenario.watched (Scenario.constant Scenario.records) 60000) in
   out.1.1 = Returned Scenario.records /\
   cache (store out.1.2) = ∅) /\
  (let out := fetchData 100 "items" POST (VObj [("name", VStr "C")]) (VStr "") true
                Session.fragile in
   out.1.1 = Returned VNull /\
   cache (store out.1.2) !! "items" = Some Scenario.records /\
   List.filter is_notify out.2 = [EvNotify 1%nat (state (store out.1.2))]).
Proof.
  split.
  - pose proof (fetchData_success
                  (Scenario.watched (Scenario.constant Scenario.records) 60000)
                  100 "items" POST (VObj [("name", VStr "C")]) (VStr "") false
                  (mkAPIHandler (Scenario.constant Scenario.records) 60000) []
                  Scenario.records eq_refl eq_refl) as H.
    cbn zeta in *. specialize (H ltac:(cbn; lia) eq_refl eq_refl).
    destruct H as [_ [_ [_ [[Hc _] [Hacc _]]]]].
    split; [|exact Hc].
    apply Hacc. intros l Hl. reflexivity.
  - pose proof (fetchData_success Session.fragile
                  100 "items" POST (VObj [("name", VStr "C")]) (VStr "") true
                  (mkAPIHandler (Scenario.constant Scenario.records) 60000) []
                  Scenario.records eq_refl eq_refl) as H.
    cbn zeta in *. specialize (H ltac:(cbn; lia) eq_refl eq_refl).
    destruct H as [Hst [_ [_ [[Hc _] [_ Hthrow]]]]].
    destruct (Hthrow [] 1%nat [2%nat]
                (TypeError "data.find is not a function")) as [Hr [Hn _]].
    { split; [reflexivity|]. split; [|reflexivity].
      intros l' Hl'. now apply elem_of_nil in Hl'. }
    split; [exact Hr|]. split.
    + rewrite Hc. apply lookup_insert_eq.
    + rewrite Hn, Hst. reflexivity.
Defined.

(** X4.  A write ([POST], [PUT], [DELETE]) on a registered key never
    looks at the cache: the first thing [fetchData] does is call the
    handler, with the payload ([null] when the payload is missing).  A
    [GET] that misses calls the handler with the URL path. *)
Theorem fetchData_handler_argument {W} (c : Config W) (now : Z) (key : string)
    (method : Method) (payload urlPath : Value) (keepCache : bool)
    (h : APIHandler W) :
  apiHandlers (store c) !! key = Some h ->
  let out := fetchData now key method payload urlPath keepCache c in
  let sent := match payload with VUndefined => VNull | _ => payload end in
  (method <> GET ->
     exists tr, out.2 = EvCall key sent (fetchFunction h sent (world c)).1 :: tr) /\
  (method = GET -> cache_hit (store c) key now = None ->
     exists tr, out.2 = EvCall key urlPath (fetchFunction h urlPath (world c)).1 :: tr).
Proof.
  intros Hh. cbn zeta.
  assert (Hgo : served_from_cache (store c) key method now = None ->
            exists tr,
              (fetchData now key method payload urlPath keepCache c).2 =
              EvCall key (handler_argument method payload urlPath)
                (fetchFunction h (handler_argument method payload urlPath) (world c)).1
              :: tr).
  { intros Hs. exact (fetchData_first_call _ _ _ _ _ _ _ _ Hs Hh). }
  split.
  - intros Hw. destruct method; try contradiction; apply (Hgo eq_refl).
  - intros -> Hmiss. apply (Hgo Hmiss).
Qed.

Lemma fetchData_handler_argument_witness :
  exists tr,
    (fetchData 100 "items" DELETE VUndefined (VStr "/5") true
       (Scenario.with_api Scenario.down 60000)).2 =
    EvCall "items" VNull (Thrown (Rejected (VStr "down"))) :: tr.
Proof.
  refine (proj1 (fetchData_handler_argument (Scenario.with_api Scenario.down 60000)
                   100 "items" DELETE VUndefined (VStr "/5") true
                   (mkAPIHandler Scenario.down 60000) eq_refl) _).
  discriminate.
Defined.

(** ** Clearing the cache *)

Section ClearFacts.

Context {W : Type}.
Implicit Types (c : Config W) (key : string) (h : APIHandler W) (s : Store W).

Lemma fetchData_refetches now key payload urlPath keepCache c h :
  cache_hit (store c) key now = None ->
  apiHandlers (store c) !! key = Some h ->
  exists tr,
    (fetchData now key GET payload urlPath keepCache c).2 =
    EvCall key urlPath (fetchFunction h urlPath (world c)).1 :: tr.
Proof.
  intros Hmiss Hh.
  exact (fetchData_first_call now key GET payload urlPath keepCache c h Hmiss Hh).
Qed.

Lemma clearCache_key_run key c :
  key <> "" ->
  clearCache (Some key) c =
  (Returned tt,
   mkConfig (with_cacheExpiration (delete key (cacheExpiration (store c)))
               (with_cache (delete key (cache (store c))) (store c))) (world c)
     (callbacks c),
   []).
Proof.
  intros Hne. unfold clearCache, bind, get_store. cbn [fst snd].
  destruct (String.eqb_spec key "") as [->|_]; [contradiction | reflexivity].
Qed.

Lemma clearCache_all_run (arg : option string) c :
  arg = None \/ arg = Some "" ->
  clearCache arg c =
  (Returned tt,
   mkConfig (with_cacheExpiration ∅ (with_cache ∅ (store c))) (world c) (callbacks c),
   []).
Proof. intros [->| ->]; reflexivity. Qed.

End ClearFacts.

(** X5.  [clearCache(key)] with a non-empty key removes the cache entry
    and the timestamp of that key and nothing else: no event, state,
    listeners and handlers untouched, the freshness of every other key
    unchanged; the next [GET] of [key] calls its handler. *)
Theorem clearCache_key_only {W} (c : Config W) (key : string) :
  key <> "" ->
  let c' := (clearCache (Some key) c).1.2 in
  (clearCache (Some key) c).2 = [] /\
  state (store c') = state (store c) /\
  listeners (store c') = listeners (store c) /\
  apiHandlers (store c') = apiHandlers (store c) /\
  cache (store c') = delete key (cache (store c)) /\
  cacheExpiration (store c') = delete key (cacheExpiration (store c)) /\
  (forall k now, k <> key ->
     cache_hit (store c') k now = cache_hit (store c) k now) /\
  (forall h now payload urlPath keepCache,
     apiHandlers (store c) !! key = Some h ->
     exists tr,
       (fetchData now key GET payload urlPath keepCache c').2 =
       EvCall key urlPath (fetchFunction h urlPath (world c)).1 :: tr).
Proof.
  intros Hne. cbn zeta. rewrite (clearCache_key_run key c Hne). cbn [fst snd].
  repeat (split; [reflexivity|]). split.
  - intros k now Hk. unfold cache_hit. cbn. now rewrite !lookup_delete_ne.
  - intros h now payload urlPath keepCache Hh.
    destruct (fetchData_refetches now key payload urlPath keepCache
                (mkConfig (with_cacheExpiration (delete key (cacheExpiration (store c)))
                             (with_cache (delete key (cache (store c))) (store c)))
                   (world c) (callbacks c)) h)
    as [tr Htr]; [| exact Hh | exists tr; exact Htr].
    unfold cache_hit. cbn. now rewrite lookup_delete_eq.
Qed.

Lemma clearCache_key_only_witness :
  cache (store (clearCache (Some "items") Session.cached).1.2) =
  delete "items" (cache (store Session.cached)).
Proof.
  refine (proj1 (proj2 (proj2 (proj2 (proj2
            (clearCache_key_only Session.cached "items" _)))))).
  discriminate.
Defined.

(** X6.  [clearCache()] empties the cache and the timestamps, and so does
    [clearCache("")], the empty string being falsy: afterwards no key is
    served from the cache, and a [GET] of any registered key calls its
    handler.  State, listeners and handlers are untouched. *)
Theorem clearCache_all {W} (c : Config W) (arg : option string) :
  arg = None \/ arg = Some "" ->
  let c' := (clearCache arg c).1.2 in
  (clearCache arg c).2 = [] /\
  cache (store c') = ∅ /\
  cacheExpiration (store c') = ∅ /\
  state (store c') = state (store c) /\
  listeners (store c') = listeners (store c) /\
  apiHandlers (store c') = apiHandlers (store c) /\
  (forall k method now, served_from_cache (store c') k method now = None) /\
  (forall key h now payload urlPath keepCache,
     apiHandlers (store c) !! key = Some h ->
     exists tr,
       (fetchData now key GET payload urlPath keepCache c').2 =
       EvCall key urlPath (fetchFunction h urlPath (world c)).1 :: tr).
Proof.
  intros Harg. cbn zeta. rewrite (clearCache_all_run arg c Harg). cbn [fst snd].
  repeat (split; [reflexivity|]). split.
  - intros k method now. destruct method; reflexivity.
  - intros key h now payload urlPath keepCache Hh.
    destruct (fetchData_refetches now key payload urlPath keepCache
                (mkConfig (with_cacheExpiration ∅ (with_cache ∅ (store c))) (world c)
                   (callbacks c)) h)
      as [tr Htr]; [reflexivity | exact Hh | exists tr; exact Htr].
Qed.

Lemma clearCache_all_witness :
  cache (store Session.cached) !! "items" = Some Scenario.records /\
  cache (store (clearCache (Some "") Session.cached).1.2) = ∅.
Proof.
  split; [vm_compute; reflexivity|].
  refine (proj1 (proj2 (clearCache_all Session.cached (Some "") _))). now right.
Defined.

(** ** Subscriptions *)

Section ListenerFacts.

Context {W : Type}.
Implicit Types (c : Config W) (l : Listener).

Lemma with_listeners_same (s : Store W) : with_listeners (listeners s) s = s.
Proof. now destruct s. Qed.

Lemma subscribe_run l c :
  subscribe l c =
  (Returned tt,
   mkConfig (with_listeners
               (if bool_decide (l ∈ listeners (store c))
                then listeners (store c) else listeners (store c) ++ [l])
               (store c)) (world c) (callbacks c),
   []).
Proof.
  unfold subscribe, bind, get_store. cbn [fst snd].
  destruct (bool_decide (l ∈ listeners (store c))); cbn; [|reflexivity].
  now rewrite with_listeners_same, config_eta.
Qed.

Lemma unsubscribe_run l c :
  unsubscribe l c =
  (Returned (bool_decide (l ∈ listeners (store c))),
   mkConfig (with_listeners (filter (fun l' => l' <> l) (listeners (store c)))
               (store c)) (world c) (callbacks c),
   []).
Proof. reflexivity. Qed.

Lemma filter_out_absent l (ls : list Listener) :
  l ∉ ls -> filter (fun l' => l' <> l) ls = ls.
Proof.
  intros Hl. induction ls as [|x ls IH]; [reflexivity|].
  rewrite filter_cons. destruct (decide (x <> l)) as [_|Heq].
  - f_equal. apply IH. intros Hin. apply Hl. now apply list_elem_of_further.
  - exfalso. apply Hl. apply dec_stable in Heq. subst. apply list_elem_of_here.
Qed.



(** [setState]: the state is replaced whatever the listeners do; what is
    returned and who is notified depends on them. *)
Lemma setState_cases newState c :
  (setState newState c).1.2 =
    mkConfig (with_state (newState ∪ state (store c)) (store c)) (world c)
      (callbacks c) /\
  (listeners_accept c (newState ∪ state (store c)) ->
     (setState newState c).1.1 = Returned tt /\
     (setState newState c).2 =
       (fun l => EvNotify l (newState ∪ state (store c))) <$> listeners (store c)) /\
  (forall before l after e,
     listener_throws c (newState ∪ state (store c)) before l after e ->
     (setState newState c).1.1 = Thrown e /\
     (setState newState c).2 =
       (fun l => EvNotify l (newState ∪ state (store c))) <$> (before ++ [l])).
Proof.
  rewrite setState_run. unfold broadcast. cbn [fst snd state listeners with_state].
  split; [reflexivity|]. split.
  - intros Hacc. now rewrite (notify_each_listeners_accept c _ Hacc).
  - intros before l after e Hthrow.
    now rewrite (notify_each_listener_throws c _ before l after e Hthrow).
Qed.

End ListenerFacts.

(** X7.  [subscribe] is idempotent (the listeners are a [Set]);
    unsubscribing a listener that was newly subscribed restores the
    configuration and answers [true]; and after [unsubscribe] of a
    listener no broadcast of [setState] reaches it. *)
Theorem subscribe_unsubscribe {W} (c : Config W) (l : Listener) :
  subscribe l (subscribe l c).1.2 = (Returned tt, (subscribe l c).1.2, []) /\
  (l ∉ listeners (store c) ->
     unsubscribe l (subscribe l c).1.2 = (Returned true, c, [])) /\
  (forall newState st,
     EvNotify l st ∉ (setState newState (unsubscribe l c).1.2).2).
Proof.
  split; [|split].
  - rewrite !subscribe_run.
    cbn [fst snd store world callbacks with_listeners listeners].
    destruct (bool_decide (l ∈ listeners (store c))) eqn:Hin.
    + rewrite Hin. reflexivity.
    + rewrite bool_decide_eq_true_2; [reflexivity|].
      apply elem_of_app. right. apply list_elem_of_here.
  - intros Hl. rewrite subscribe_run, unsubscribe_run.
    cbn [fst snd store world callbacks with_listeners listeners state cache
         apiHandlers cacheExpiration].
    rewrite (bool_decide_eq_false_2 _ Hl).
    rewrite bool_decide_eq_true_2
      by (apply elem_of_app; right; apply list_elem_of_here).
    rewrite filter_app, (filter_out_absent l _ Hl).
    rewrite filter_cons, decide_False by (intros H; now apply H).
    rewrite filter_nil, app_nil_r.
    change (with_listeners (listeners (store c))
              (with_listeners (listeners (store c) ++ [l]) (store c)))
      with (with_listeners (listeners (store c)) (store c)).
    now rewrite with_listeners_same, config_eta.
  - intros newState st Hin. rewrite unsubscribe_run in Hin. cbn [fst snd] in Hin.
    rewrite setState_run in Hin. cbn [snd] in Hin.
    apply notify_each_sub in Hin. cbn in Hin.
    apply list_elem_of_fmap in Hin as [l' [Heq Hl']].
    inversion Heq; subst l'.
    apply list_elem_of_filter in Hl' as [Hne _]. now apply Hne.
Qed.

Lemma subscribe_unsubscribe_witness :
  unsubscribe 2%nat (subscribe 2%nat Scenario.local).1.2 =
  (Returned true, Scenario.local, []).
Proof.
  refine (proj1 (proj2 (subscribe_unsubscribe Scenario.local 2%nat)) _).
  vm_compute. intros H. apply list_elem_of_singleton in H. discriminate.
Defined.

(** ** Registration and (re)creation *)





(** ** Well-formed stores *)

Section WellFormed.

Context {W : Type}.
Implicit Types (c : Config W) (key idKey : string) (s : Store W).

Lemma store_wf_with_state s st : store_wf s -> store_wf (with_state st s).
Proof. intros H. exact H. Qed.

Lemma store_wf_cached s key v :
  truthy v = true -> store_wf s ->
  store_wf (with_cache (<[key := v]> (cache s)) s).
Proof.
  intros Hv [Hnd [Hts Htr]]. split; [exact Hnd|]. split; cbn.
  - intros k Hk. apply lookup_insert_is_Some'. right. now apply Hts.
  - intros k v' Hk. apply lookup_insert_Some in Hk as [[_ <-]|[_ Hk]]; eauto.
Qed.

Lemma store_wf_committed s now key data keepCache :
  truthy data = true -> store_wf s -> store_wf (committed now key data keepCache s).
Proof.
  intros Hd [Hnd [Hts Htr]]. unfold committed.
  destruct keepCache; [|now split]. split; [exact Hnd|]. split; cbn.
  - intros k Hk. apply lookup_insert_is_Some'.
    apply lookup_insert_is_Some' in Hk as [->|Hk]; [now left | right; now apply Hts].
  - intros k v' Hk. apply lookup_insert_Some in Hk as [[_ <-]|[_ Hk]]; eauto.
Qed.

(** [editItem] writes the state, and an array in the cache at [key]. *)
Lemma editItem_store_cases key idKey id fields c :
  exists st,
    store (editItem key idKey id fields c).1.2 = with_state st (store c) \/
    exists updated,
      store (editItem key idKey id fields c).1.2 =
        with_cache (<[key := VArr updated]> (cache (store c))) (with_state st (store c)).
Proof.
  assert (Hsame : store c = with_state (state (store c)) (store c)).
  { now destruct (store c). }
  remember (editItem key idKey id fields c) as out eqn:Hout.
  unfold editItem, try_catch in Hout. unfold bind at 1 in Hout.
  unfold get_store at 1 in Hout. cbn [fst snd] in Hout.
  destruct (negb (truthy (default VUndefined (state (store c) !! key)))
            || negb (isArray (default VUndefined (state (store c) !! key)))).
  { subst out. cbn. eauto. }
  destruct (default VUndefined (state (store c) !! key)) as [| | | | |items|];
    try (subst out; cbn; now eauto).
  unfold bind at 1 in Hout.
  destruct (mapM_frame
              (fun item => same ← id_matches idKey id item;
                           ret (if same : bool then spread2 item fields else item))
              items c) as [Hc Ht].
  { intros x c0.
    apply (callback_frame idKey id
             (fun item (same : bool) => if same then spread2 item fields else item)). }
  destruct (mapM _ items c) as [[[updated|e] c1] tr1]; cbn in Hc, Ht; subst c1 tr1.
  - unfold bind at 1 in Hout. rewrite setState_run in Hout.
    destruct (broadcast c _) as [[[]|e] ntr]; subst out; cbn.
    + eexists. right. eexists. reflexivity.
    + eauto.
  - subst out. cbn. eauto.
Qed.

Lemma exec_op_wf (op : Op W) c :
  store_wf (store c) -> store_wf (store (exec_op op c).1.2).
Proof.
  intros Hwf.
  destruct op as [init | key f d | key | l | l | st
                 | now key method payload urlPath keepCache
                 | key idKey id | key idKey id fields];
    cbn [exec_op]; rewrite bind_ret_run; cbn [fst snd].
  - exact Hwf.
  - destruct f as [f|]; exact Hwf.
  - destruct Hwf as [Hnd [Hts Htr]].
    assert (Hall : store_wf (with_cacheExpiration ∅ (with_cache ∅ (store c)))).
    { split; [exact Hnd|]. split; cbn; intros k; rewrite lookup_empty;
        [intros [? [=]] | discriminate]. }
    destruct key as [key|]; [destruct (String.eqb_spec key "") as [->|Hne]|].
    + rewrite (clearCache_all_run (Some "") c) by auto. exact Hall.
    + rewrite (clearCache_key_run key c Hne). cbn [fst snd store].
      split; [exact Hnd|]. split; cbn.
      * intros k Hk. apply lookup_delete_is_Some in Hk as [Hk' Hk].
        apply lookup_delete_is_Some. split; [exact Hk' | now apply Hts].
      * intros k v Hk. apply lookup_delete_Some in Hk as [_ Hk]. eauto.
    + rewrite (clearCache_all_run None c) by auto. exact Hall.
  - rewrite subscribe_run. cbn [fst snd store].
    destruct Hwf as [Hnd Hrest]. split; [|exact Hrest]. cbn.
    destruct (bool_decide (l ∈ listeners (store c))) eqn:Hin; [exact Hnd|].
    apply bool_decide_eq_false_1 in Hin.
    apply NoDup_app. split; [exact Hnd|]. split; [|apply NoDup_singleton].
    intros x Hx Hx'. apply list_elem_of_singleton in Hx'. now subst.
  - destruct Hwf as [Hnd Hrest]. split; [|exact Hrest]. cbn.
    now apply NoDup_filter.
  - rewrite setState_run. exact Hwf.
  - destruct (fetchData_store_cases now key method payload urlPath keepCache c)
      as [->|[data [Hd ->]]]; [exact Hwf | now apply store_wf_committed].
  - destruct (deleteItem_frame key idKey id c) as [st ->]. exact Hwf.
  - destruct (editItem_store_cases key idKey id fields c) as [st [->|[updated ->]]];
      [exact Hwf|].
    apply (store_wf_cached (with_state st (store c))); [reflexivity | exact Hwf].
Qed.

Lemma reachable_wf c (hist : list (Step W)) :
  reachable c hist -> store_wf (store c).
Proof.
  induction 1 as [w cb | c hist w _ IH | c hist op a c' tr _ IH Hrun].
  - split; [constructor|]. split; cbn; intros k; rewrite lookup_empty;
      [intros [? [=]] | discriminate].
  - exact IH.
  - replace c' with (exec_op op c).1.2 by now rewrite Hrun.
    now apply exec_op_wf.
Qed.

End WellFormed.

(** X10.  In every reachable configuration each key with a timestamp has
    a cached value, each key with a timestamp has a registered handler,
    and every cached value is truthy; so whatever [fetchData] serves from
    the cache is truthy, and the hook's [if (data)] accepts it. *)
Theorem cache_well_formed {W} (c : Config W) (hist : list (Step W)) :
  reachable c hist ->
  (forall k, is_Some (cacheExpiration (store c) !! k) ->
             is_Some (cache (store c) !! k) /\ is_Some (apiHandlers (store c) !! k)) /\
  (forall k v, cache (store c) !! k = Some v -> truthy v = true) /\
  (forall key method now v,
     served_from_cache (store c) key method now = Some v -> truthy v = true).
Proof.
  intros Hr. destruct (reachable_wf c hist Hr) as [_ [Hts Htr]].
  split; [|split].
  - intros k Hk. split; [now apply Hts|].
    now apply (proj1 (reachable_invariant c hist Hr)).
  - exact Htr.
  - intros key method now v Hs. destruct method; try discriminate.
    cbn in Hs. unfold cache_hit in Hs.
    destruct (cache (store c) !! key) as [v'|] eqn:Hc; [|discriminate].
    destruct (cacheExpiration (store c) !! key); [|discriminate].
    destruct (_ <=? _); [|discriminate]. inversion Hs; subst. eauto.
Qed.

Lemma cache_well_formed_witness :
  is_Some (cache (store Session.fetched.1) !! "items") /\
  is_Some (apiHandlers (store Session.fetched.1) !! "items").
Proof.
  refine (proj1 (cache_well_formed Session.fetched.1 Session.fetched.2 _) "items" _).
  - apply (run_ops_reachable Session.fetch_session Scenario.fresh []).
    apply reach_new.
  - vm_compute. eexists. reflexivity.
Defined.



(** ** Local deletion and edition, element by element *)

Section LocalFacts.

Context {W : Type}.
Implicit Types (c : Config W) (key idKey : string) (id item : Value).

Lemma id_matches_run idKey id item c :
  id_matches idKey id item c =
  match same_id idKey id item with
  | Some b => (Returned b, c, [])
  | None => (Thrown (TypeError "Cannot read properties of null or undefined"), c, [])
  end.
Proof. unfold id_matches, same_id. now destruct (get_prop item idKey). Qed.

Lemma filterM_pure {A} (f : A -> M W bool) (P : A -> Prop)
    `{forall x, Decision (P x)} (l : list A) c :
  Forall (fun x => forall c, f x c = (Returned (bool_decide (P x)), c, [])) l ->
  filterM f l c = (Returned (filter P l), c, []).
Proof.
  induction 1 as [|x l Hx _ IH]; [reflexivity|].
  cbn [filterM]. unfold bind at 1. rewrite Hx. rewrite bind_ret_run, IH.
  rewrite filter_cons. cbn [fst snd app]. unfold bool_decide, decide.
  now destruct (H x).
Qed.

Lemma mapM_throws {A B} (f : A -> M W B) (e : Exn) (l : list A) c :
  (forall x c, (exists y, f x c = (Returned y, c, [])) \/ f x c = (Thrown e, c, [])) ->
  Exists (fun x => forall c, f x c = (Thrown e, c, [])) l ->
  mapM f l c = (Thrown e, c, []).
Proof.
  intros Hf. induction 1 as [x l Hx | x l _ IH].
  - cbn [mapM]. unfold bind at 1. now rewrite Hx.
  - cbn [mapM]. unfold bind at 1.
    destruct (Hf x c) as [[y ->]| ->]; [|reflexivity].
    rewrite bind_ret_run, IH. reflexivity.
Qed.

Lemma filterM_throws {A} (f : A -> M W bool) (e : Exn) (l : list A) c :
  (forall x c, (exists y, f x c = (Returned y, c, [])) \/ f x c = (Thrown e, c, [])) ->
  Exists (fun x => forall c, f x c = (Thrown e, c, [])) l ->
  filterM f l c = (Thrown e, c, []).
Proof.
  intros Hf. induction 1 as [x l Hx | x l _ IH].
  - cbn [filterM]. unfold bind at 1. now rewrite Hx.
  - cbn [filterM]. unfold bind at 1.
    destruct (Hf x c) as [[y ->]| ->]; [|reflexivity].
    rewrite bind_ret_run, IH. reflexivity.
Qed.

(** The two callbacks, on an element whose property can or cannot be
    read. *)
Lemma callback_cases {B} idKey id (g : Value -> bool -> B) item c :
  (exists y, (same ← id_matches idKey id item; ret (g item same)) c = (Returned y, c, [])) \/
  (same ← id_matches idKey id item; ret (g item same)) c =
    (Thrown (TypeError "Cannot read properties of null or undefined"), c, []).
Proof.
  rewrite bind_ret_run, id_matches_run.
  destruct (same_id idKey id item); cbn; eauto.
Qed.

Lemma callback_unreadable {B} idKey id (g : Value -> bool -> B) item c :
  get_prop item idKey = None ->
  (same ← id_matches idKey id item; ret (g item same)) c =
    (Thrown (TypeError "Cannot read properties of null or undefined"), c, []).
Proof.
  intros Hn. rewrite bind_ret_run, id_matches_run. unfold same_id. now rewrite Hn.
Qed.

Lemma deleteItem_run_array key idKey id items c :
  truthy id = true ->
  state (store c) !! key = Some (VArr items) ->
  deleteItem key idKey id c =
  match filterM (fun item => same ← id_matches idKey id item; ret (negb same)) items c with
  | (Returned kept, c1, tr1) =>
      let '(r, c2, tr2) := setState {[key := VArr kept]} c1 in (r, c2, tr1 ++ tr2)
  | (Thrown e, c1, tr1) => (Thrown e, c1, tr1)
  end.
Proof.
  intros Hid Hitems. unfold deleteItem. rewrite Hid. cbn [negb].
  unfold getState. unfold bind at 1 2. unfold get_store at 1. cbn [fst snd ret].
  rewrite Hitems. cbn [default from_option Datatypes.id]. unfold bind at 1.
  rewrite bind_ret_run.
  destruct (filterM _ items c) as [[[kept|e] c1] tr1]; cbn [fst snd]; [|reflexivity].
  destruct (setState _ c1) as [[r c2] tr2]. cbn. now rewrite ?app_nil_r.
Qed.

(** On a readable sequence [deleteItem] is one [setState]. *)
Lemma deleteItem_run_readable key idKey id items c :
  truthy id = true ->
  state (store c) !! key = Some (VArr items) ->
  Forall (fun item => is_Some (get_prop item idKey)) items ->
  deleteItem key idKey id c =
  setState {[key := VArr (filter (fun item => same_id idKey id item = Some false) items)]} c.
Proof.
  intros Hid Hitems Hread.
  rewrite (deleteItem_run_array key idKey id items c Hid Hitems).
  rewrite (filterM_pure _ (fun item => same_id idKey id item = Some false)).
  - now destruct (setState _ c) as [[r c2] tr2].
  - eapply Forall_impl; [exact Hread|].
    intros item [field Hfield] c0. rewrite bind_ret_run, id_matches_run.
    unfold same_id. rewrite Hfield. cbn.
    destruct (String.eqb (to_string field) (to_string id)); reflexivity.
Qed.

(** On anything but an array [deleteItem] stores the empty array. *)
Lemma deleteItem_run_other key idKey id c :
  truthy id = true ->
  isArray (default VUndefined (state (store c) !! key)) = false ->
  deleteItem key idKey id c = setState {[key := VArr []]} c.
Proof.
  intros Hid Hna. unfold deleteItem. rewrite Hid. cbn [negb].
  unfold getState. unfold bind at 1 2. unfold get_store at 1. cbn [fst snd ret].
  destruct (default VUndefined (state (store c) !! key)); try discriminate;
    unfold bind at 1; cbn [ret];
    now destruct (setState _ c) as [[r c2] tr2].
Qed.

(** [editItem] on a readable sequence, by what the listeners do. *)
Lemma editItem_readable_cases key idKey id fields items c :
  state (store c) !! key = Some (VArr items) ->
  Forall (fun item => is_Some (get_prop item idKey)) items ->
  let updated := edit_one idKey id fields <$> items in
  let st' := <[key := VArr updated]> (state (store c)) in
  (listeners_accept c st' ->
     editItem key idKey id fields c =
     (Returned (mkEditResult true "Item edited successfully"),
      mkConfig (with_cache (<[key := VArr updated]> (cache (store c)))
                  (with_state st' (store c))) (world c) (callbacks c),
      (fun l => EvNotify l st') <$> listeners (store c))) /\
  (forall before l after e,
     listener_throws c st' before l after e ->
     editItem key idKey id fields c =
     (Returned (mkEditResult false ("Error editing item: " +:+ exn_to_string e)),
      mkConfig (with_state st' (store c)) (world c) (callbacks c),
      (fun l => EvNotify l st') <$> (before ++ [l]))).
Proof.
  intros Hitems Hread. cbn zeta.
  rewrite (editItem_run_readable key idKey id fields items c Hitems Hread).
  unfold broadcast. cbn [state listeners with_state]. split.
  - intros Hacc. now rewrite (notify_each_listeners_accept c _ Hacc).
  - intros before l after e Hthrow.
    now rewrite (notify_each_listener_throws c _ before l after e Hthrow).
Qed.

Lemma find_by_id_none idKey id (items : list Value) :
  Forall (fun item => same_id idKey id item = Some false) items ->
  find_by_id idKey id items = Returned VUndefined.
Proof.
  induction 1 as [|item items Hitem _ IH]; [reflexivity|].
  cbn. now rewrite Hitem.
Qed.

End LocalFacts.

(** X12.  [deleteItem] with a truthy id, on a sequence every element of
    which can be read: the state at [key] becomes the subsequence, in
    order, of the elements whose [idKey] property does not print like the
    id; listeners, cache, timestamps and handlers are untouched; no
    remaining element matches, so the hook's lookup of that id in the new
    sequence gives [null].  The listeners are then called with the new
    state: if none throws, each is notified once and [deleteItem]
    returns; if one throws, [deleteItem] throws that exception to its
    caller, with the state already replaced and the listeners behind the
    thrower not called.  With a falsy id ([0], the empty string, [null],
    ...) nothing happens at all.  When the state at [key] is not an array
    it is replaced by the empty array, in the same way. *)
Theorem deleteItem_spec {W} (c : Config W) (key idKey : string) (id : Value) :
  (truthy id = true ->
   forall items,
     state (store c) !! key = Some (VArr items) ->
     Forall (fun item => is_Some (get_prop item idKey)) items ->
     let kept := filter (fun item => same_id idKey id item = Some false) items in
     let st' := <[key := VArr kept]> (state (store c)) in
     let out := deleteItem key idKey id c in
     Forall (fun item => same_id idKey id item = Some false) kept /\
     select_item idKey id (VArr kept) = Returned VNull /\
     state (store out.1.2) = st' /\
     listeners (store out.1.2) = listeners (store c) /\
     cache (store out.1.2) = cache (store c) /\
     cacheExpiration (store out.1.2) = cacheExpiration (store c) /\
     apiHandlers (store out.1.2) = apiHandlers (store c) /\
     world out.1.2 = world c /\
     (listeners_accept c st' ->
        out.1.1 = Returned tt /\
        out.2 = (fun l => EvNotify l st') <$> listeners (store c)) /\
     (forall before l after e,
        listener_throws c st' before l after e ->
        out.1.1 = Thrown e /\
        out.2 = (fun l => EvNotify l st') <$> (before ++ [l]))) /\
  (truthy id = false -> deleteItem key idKey id c = (Returned tt, c, [])) /\
  (truthy id = true ->
   isArray (default VUndefined (state (store c) !! key)) = false ->
   let st' := <[key := VArr []]> (state (store c)) in
   let out := deleteItem key idKey id c in
   state (store out.1.2) = st' /\
   listeners (store out.1.2) = listeners (store c) /\
   cache (store out.1.2) = cache (store c) /\
   cacheExpiration (store out.1.2) = cacheExpiration (store c) /\
   apiHandlers (store out.1.2) = apiHandlers (store c) /\
   world out.1.2 = world c /\
   (listeners_accept c st' ->
      out.1.1 = Returned tt /\
      out.2 = (fun l => EvNotify l st') <$> listeners (store c)) /\
   (forall before l after e,
      listener_throws c st' before l after e ->
      out.1.1 = Thrown e /\
      out.2 = (fun l => EvNotify l st') <$> (before ++ [l]))).
Proof.
  split; [|split].
  - intros Hid items Hitems Hread. cbn zeta.
    assert (Hkept : Forall (fun item => same_id idKey id item = Some false)
                      (filter (fun item => same_id idKey id item = Some false) items)).
    { apply Forall_forall. intros item Hin.
      now apply list_elem_of_filter in Hin as [Hitem _]. }
    split; [exact Hkept|]. split.
    { unfold select_item. rewrite Hid, (find_by_id_none idKey id _ Hkept). reflexivity. }
    rewrite (deleteItem_run_readable key idKey id items c Hid Hitems Hread).
    destruct (setState_cases
                {[key := VArr (filter (fun item => same_id idKey id item = Some false)
                                 items)]} c) as [Hc [Hacc Hthrow]].
    rewrite <- insert_union_singleton_l in Hc, Hacc, Hthrow.
    rewrite Hc. cbn [store world state listeners cache cacheExpiration apiHandlers
                     with_state].
    repeat (split; [reflexivity|]). split; [exact Hacc | exact Hthrow].
  - intros Hid. unfold deleteItem. now rewrite Hid.
  - intros Hid Hna. cbn zeta.
    rewrite (deleteItem_run_other key idKey id c Hid Hna).
    destruct (setState_cases {[key := VArr []]} c) as [Hc [Hacc Hthrow]].
    rewrite <- insert_union_singleton_l in Hc, Hacc, Hthrow.
    rewrite Hc. cbn [store world state listeners cache cacheExpiration apiHandlers
                     with_state].
    repeat (split; [reflexivity|]). split; [exact Hacc | exact Hthrow].
Qed.

Lemma deleteItem_spec_witness :
  state (store (deleteItem "items" "id" (VNum 5) Scenario.local).1.2) !! "items" =
    Some (VArr [VObj [("id", VNum 7); ("name", VStr "B")]]) /\
  (deleteItem "items" "id" (VNum 5) Scenario.local).1.1 = Returned tt /\
  (deleteItem "items" "id" (VNum 5) Session.fragile).1.1 =
    Thrown (TypeError "data.find is not a function") /\
  deleteItem "items" "id" (VNum 0) Scenario.local = (Returned tt, Scenario.local, []).
Proof.
  assert (Hread : Forall (fun item => is_Some (get_prop item "id"))
                    [VObj [("id", VNum 5); ("name", VStr "A")];
                     VObj [("id", VNum 7); ("name", VStr "B")]]).
  { repeat constructor; cbn; eauto. }
  split; [|split; [|split]].
  - destruct (proj1 (deleteItem_spec Scenario.local "items" "id" (VNum 5)) eq_refl
                _ eq_refl Hread) as [_ [_ [Hst _]]].
    cbn zeta in Hst. rewrite Hst. now rewrite lookup_insert_eq.
  - destruct (proj1 (deleteItem_spec Scenario.local "items" "id" (VNum 5)) eq_refl
                _ eq_refl Hread) as [_ [_ [_ [_ [_ [_ [_ [_ [Hacc _]]]]]]]]].
    cbn zeta in Hacc. apply Hacc. intros l Hl. reflexivity.
  - destruct (proj1 (deleteItem_spec Session.fragile "items" "id" (VNum 5)) eq_refl
                _ eq_refl Hread) as [_ [_ [_ [_ [_ [_ [_ [_ [_ Hthrow]]]]]]]]].
    cbn zeta in Hthrow.
    refine (proj1 (Hthrow [] 1%nat [2%nat] (TypeError "data.find is not a function") _)).
    split; [reflexivity|]. split; [|reflexivity].
    intros l' Hl'. now apply elem_of_nil in Hl'.
  - exact (proj1 (proj2 (deleteItem_spec Scenario.local "items" "id" (VNum 0))) eq_refl).
Defined.

(** X13.  [deleteItem] leaves the cache alone, [editItem] rewrites it when
    the broadcast goes through: whatever the cache served for [key] before
    a local deletion it still serves afterwards (deleted records
    included), with the same freshness.  After a local edit of a readable
    sequence the state holds the edited sequence; a [GET] that is still
    fresh returns the edited sequence if no listener threw, and the value
    cached before the edit, which the state no longer holds, if one
    did.  None of these makes a handler call. *)
Theorem local_mutations_and_cache {W} (c : Config W) (key idKey : string)
    (id fields : Value) (now : Z) (payload urlPath : Value) (keepCache : bool) :
  (forall v,
     cache_hit (store c) key now = Some v ->
     let c' := (deleteItem key idKey id c).1.2 in
     fetchData now key GET payload urlPath keepCache c' = (Returned v, c', [])) /\
  (forall items v,
     state (store c) !! key = Some (VArr items) ->
     Forall (fun item => is_Some (get_prop item idKey)) items ->
     cache_hit (store c) key now = Some v ->
     let updated := VArr (edit_one idKey id fields <$> items) in
     let c' := (editItem key idKey id fields c).1.2 in
     state (store c') !! key = Some updated /\
     (listeners_accept c (<[key := updated]> (state (store c))) ->
        fetchData now key GET payload urlPath keepCache c' = (Returned updated, c', [])) /\
     (forall before l after e,
        listener_throws c (<[key := updated]> (state (store c))) before l after e ->
        fetchData now key GET payload urlPath keepCache c' = (Returned v, c', []))).
Proof.
  split.
  - intros v Hhit. cbn zeta. apply fetchData_served. cbn.
    destruct (deleteItem_frame key idKey id c) as [st ->]. exact Hhit.
  - intros items v Hitems Hread Hhit. cbn zeta.
    destruct (editItem_readable_cases key idKey id fields items c Hitems Hread)
      as [Hacc Hthrow]. cbn zeta in Hacc, Hthrow.
    split; [|split].
    + rewrite (editItem_run_readable key idKey id fields items c Hitems Hread).
      destruct (broadcast c _) as [[[]|e] ntr]; cbn; apply lookup_insert_eq.
    + intros Ha. rewrite (Hacc Ha). cbn [fst snd].
      apply fetchData_served. cbn. unfold cache_hit in *. cbn.
      rewrite lookup_insert_eq.
      destruct (cache (store c) !! key); [|discriminate].
      destruct (cacheExpiration (store c) !! key); [|discriminate].
      destruct (_ <=? _); [reflexivity | discriminate].
    + intros before l after e Ht. rewrite (Hthrow before l after e Ht). cbn [fst snd].
      apply fetchData_served. exact Hhit.
Qed.

Lemma local_mutations_and_cache_witness :
  (fetchData 200 "items" GET VNull (VStr "") true
     (deleteItem "items" "id" (VNum 5) Session.cached).1.2).1.1 =
    Returned Scenario.records /\
  (fetchData 200 "items" GET VNull (VStr "") true
     (editItem "items" "id" (VNum 5) (VObj [("name", VStr "X")]) Session.cached).1.2).1.1 =
    Returned (VArr [VObj [("id", VNum 5); ("name", VStr "X")];
                    VObj [("id", VNum 7); ("name", VStr "B")]]) /\
  (fetchData 200 "items" GET VNull (VStr "") true
     (editItem "items" "id" (VNum 5) (VObj [("name", VStr "X")])
        Session.fragile_cached).1.2).1.1 =
    Returned Scenario.records.
Proof.
  assert (Hread : Forall (fun item => is_Some (get_prop item "id"))
                    [VObj [("id", VNum 5); ("name", VStr "A")];
                     VObj [("id", VNum 7); ("name", VStr "B")]]).
  { repeat constructor; cbn; eauto. }
  split; [|split].
  - pose proof (proj1 (local_mutations_and_cache Session.cached "items" "id" (VNum 5)
                         (VObj [("name", VStr "X")]) 200 VNull (VStr "") true)
                  Scenario.records eq_refl) as Hd.
    cbn zeta in Hd. now rewrite Hd.
  - destruct (proj2 (local_mutations_and_cache Session.cached "items" "id" (VNum 5)
                       (VObj [("name", VStr "X")]) 200 VNull (VStr "") true)
                _ Scenario.records eq_refl Hread eq_refl) as [_ [He _]].
    cbn zeta in He. rewrite He; [reflexivity|]. intros l Hl. reflexivity.
  - destruct (proj2 (local_mutations_and_cache Session.fragile_cached "items" "id"
                       (VNum 5) (VObj [("name", VStr "X")]) 200 VNull (VStr "") true)
                _ Scenario.records eq_refl Hread eq_refl) as [_ [_ He]].
    cbn zeta in He.
    rewrite (He [] 1%nat [2%nat] (TypeError "data.find is not a function"));
      [reflexivity|].
    split; [reflexivity|]. split; [|reflexivity].
    intros l' Hl'. now apply elem_of_nil in Hl'.
Defined.

(** X14.  A [null] or [undefined] element in the sequence at [key]:
    [deleteItem] (with a truthy id) throws the [TypeError] to its caller,
    [editItem] catches it and answers [status: false] with an
    "Error editing item" message.  In both cases the configuration is
    unchanged and no listener is notified. *)
Theorem local_mutations_unreadable {W} (c : Config W) (key idKey : string)
    (id fields : Value) (items : list Value) :
  state (store c) !! key = Some (VArr items) ->
  Exists (fun item => get_prop item idKey = None) items ->
  (truthy id = true ->
   deleteItem key idKey id c =
     (Thrown (TypeError "Cannot read properties of null or undefined"), c, [])) /\
  editItem key idKey id fields c =
    (Returned (mkEditResult false
       "Error editing item: TypeError: Cannot read properties of null or undefined"),
     c, []).
Proof.
  intros Hitems Hbad. split.
  - intros Hid. rewrite (deleteItem_run_array key idKey id items c Hid Hitems).
    rewrite (filterM_throws _
               (TypeError "Cannot read properties of null or undefined")); [reflexivity| |].
    + intros x c0. apply (callback_cases idKey id (fun _ same => negb same)).
    + eapply Exists_impl; [exact Hbad|]. intros item Hitem c0.
      now apply (callback_unreadable idKey id (fun _ same => negb same)).
  - unfold editItem, try_catch. unfold bind at 1. unfold get_store at 1.
    cbn [fst snd].
    rewrite Hitems. cbn [default from_option Datatypes.id truthy isArray negb orb].
    unfold bind at 1.
    rewrite (mapM_throws _
               (TypeError "Cannot read properties of null or undefined")).
    + reflexivity.
    + intros x c0.
      apply (callback_cases idKey id
               (fun item (same : bool) => if same then spread2 item fields else item)).
    + eapply Exists_impl; [exact Hbad|]. intros item Hitem c0.
      now apply (callback_unreadable idKey id
                   (fun item (same : bool) => if same then spread2 item fields else item)).
Qed.

Lemma local_mutations_unreadable_witness :
  (editItem "items" "id" (VNum 5) (VObj []) Session.holed).1.1 =
  Returned (mkEditResult false
    "Error editing item: TypeError: Cannot read properties of null or undefined").
Proof.
  assert (Hitems : state (store Session.holed) !! "items" =
                   Some (VArr [VObj [("id", VNum 5)]; VNull])) by reflexivity.
  assert (Hbad : Exists (fun item => get_prop item "id" = None)
                   [VObj [("id", VNum 5)]; VNull]).
  { apply Exists_cons_tl, Exists_cons_hd. reflexivity. }
  rewrite (proj2 (local_mutations_unreadable Session.holed "items" "id" (VNum 5)
                    (VObj []) _ Hitems Hbad)).
  reflexivity.
Defined.

(** X15.  [editItem] on a readable sequence in which no element matches
    the id writes the sequence back unchanged and broadcasts the state.
    If no listener throws it still answers [status: true], every listener
    is notified, and the cache receives the sequence as the value of
    [key] whether or not it held one before.  If a listener throws, it
    answers [status: false] with that exception in the message and the
    cache is as before.  The timestamps are untouched either way. *)
Theorem editItem_no_match {W} (c : Config W) (key idKey : string)
    (id fields : Value) (items : list Value) :
  state (store c) !! key = Some (VArr items) ->
  Forall (fun item => same_id idKey id item = Some false) items ->
  let out := editItem key idKey id fields c in
  state (store out.1.2) = state (store c) /\
  cacheExpiration (store out.1.2) = cacheExpiration (store c) /\
  (listeners_accept c (state (store c)) ->
     out.1.1 = Returned (mkEditResult true "Item edited successfully") /\
     cache (store out.1.2) = <[key := VArr items]> (cache (store c)) /\
     out.2 = (fun l => EvNotify l (state (store c))) <$> listeners (store c)) /\
  (forall before l after e,
     listener_throws c (state (store c)) before l after e ->
     out.1.1 = Returned (mkEditResult false
                 ("Error editing item: " +:+ exn_to_string e)) /\
     cache (store out.1.2) = cache (store c) /\
     out.2 = (fun l' => EvNotify l' (state (store c))) <$> (before ++ [l])).
Proof.
  intros Hitems Hnone. cbn zeta.
  assert (Hread : Forall (fun item => is_Some (get_prop item idKey)) items).
  { eapply Forall_impl; [exact Hnone|]. intros item Hitem. unfold same_id in Hitem.
    destruct (get_prop item idKey); [eauto | discriminate]. }
  assert (Hsame : edit_one idKey id fields <$> items = items).
  { clear Hitems Hread. induction Hnone as [|item items Hitem _ IH]; [reflexivity|].
    cbn. rewrite IH. f_equal. unfold edit_one, same_id in *.
    destruct (get_prop item idKey) as [field|]; [|reflexivity].
    cbn in Hitem. inversion Hitem as [Heq]. now rewrite Heq. }
  destruct (editItem_readable_cases key idKey id fields items c Hitems Hread)
    as [Hacc Hthrow]. cbn zeta in Hacc, Hthrow.
  rewrite Hsame, (insert_id _ _ _ Hitems) in Hacc, Hthrow.
  split; [|split; [|split]].
  - rewrite (editItem_run_readable key idKey id fields items c Hitems Hread).
    rewrite Hsame, (insert_id _ _ _ Hitems).
    destruct (broadcast c _) as [[[]|e] ntr]; reflexivity.
  - rewrite (editItem_run_readable key idKey id fields items c Hitems Hread).
    destruct (broadcast c _) as [[[]|e] ntr]; reflexivity.
  - intros Ha. rewrite (Hacc Ha). auto.
  - intros before l after e Ht. rewrite (Hthrow before l after e Ht). auto.
Qed.

Lemma editItem_no_match_witness :
  cache (store (editItem "items" "id" (VNum 9) (VObj [("name", VStr "X")])
                  Scenario.local).1.2) !! "items" = Some Scenario.records /\
  cache (store (editItem "items" "id" (VNum 9) (VObj [("name", VStr "X")])
                  Session.fragile).1.2) !! "items" = None.
Proof.
  split.
  - pose proof (editItem_no_match Scenario.local "items" "id" (VNum 9)
                  (VObj [("name", VStr "X")])
                  [VObj [("id", VNum 5); ("name", VStr "A")];
                   VObj [("id", VNum 7); ("name", VStr "B")]] eq_refl) as H.
    cbn zeta in H. destruct H as [_ [_ [Hacc _]]]; [repeat constructor|].
    destruct Hacc as [_ [Hc _]]; [intros l Hl; reflexivity|].
    rewrite Hc. apply lookup_insert_eq.
  - pose proof (editItem_no_match Session.fragile "items" "id" (VNum 9)
                  (VObj [("name", VStr "X")])
                  [VObj [("id", VNum 5); ("name", VStr "A")];
                   VObj [("id", VNum 7); ("name", VStr "B")]] eq_refl) as H.
    cbn zeta in H. destruct H as [_ [_ [_ Hthrow]]]; [repeat constructor|].
    destruct (Hthrow [] 1%nat [2%nat] (TypeError "data.find is not a function"))
      as [_ [Hc _]].
    + split; [reflexivity|]. split; [|reflexivity].
      intros l' Hl'. now apply elem_of_nil in Hl'.
    + rewrite Hc. reflexivity.
Defined.

(** ** The hook: what the component is told *)

Section HookFacts.

Context {W : Type}.
Implicit Types (c : Config W) (key idKey : string) (h : APIHandler W).

Lemma fetchData_returns now key method payload urlPath keepCache c :
  exists v, (fetchData now key method payload urlPath keepCache c).1.1 = Returned v.
Proof.
  destruct (served_from_cache (store c) key method now) as [v|] eqn:Hs.
  { rewrite (fetchData_served _ _ _ _ _ _ _ _ Hs). eauto. }
  destruct (apiHandlers (store c) !! key) as [h|] eqn:Hh.
  2:{ rewrite (fetchData_unregistered _ _ _ _ _ _ _ Hs Hh). eauto. }
  rewrite (fetchData_fetched _ _ _ _ _ _ _ _ Hs Hh).
  destruct (retryFetch _ 3 1000 c) as [[[data|e] cr] tr1]; [|eauto].
  destruct (truthy data); [|eauto].
  destruct (broadcast cr _) as [[[]|e] ntr]; eauto.
Qed.

(** Three rejections: [null], and the store as it was. *)
Lemma fetchData_rejected now key method payload urlPath keepCache c h errs :
  served_from_cache (store c) key method now = None ->
  apiHandlers (store c) !! key = Some h ->
  call_outcomes (fetchFunction h) (handler_argument method payload urlPath)
    (world c) 3 = Thrown <$> errs ->
  (fetchData now key method payload urlPath keepCache c).1.1 = Returned VNull /\
  store (fetchData now key method payload urlPath keepCache c).1.2 = store c.
Proof.
  intros Hs Hh Hout.
  rewrite (fetchData_fetched now key method payload urlPath keepCache c h Hs Hh).
  set (arg := handler_argument method payload urlPath) in *.
  assert (Hlen : length errs = 3%nat).
  { apply (f_equal length) in Hout.
    now rewrite call_outcomes_length, length_fmap in Hout. }
  rewrite <- Hlen in Hout.
  destruct (retry_loop_exhaust key h arg 3 1000 errs 0 c) as [[e [_ Hres]] _];
    [intros ->; discriminate | lia | exact Hout |].
  pose proof (retryFetch_store key h arg 3 1000 c) as Hst.
  unfold retryFetch in *.
  destruct (retry_loop _ 3 1000 0 c) as [[res cr] tr].
  cbn [fst snd] in Hres, Hst. subst res. cbn [fst snd]. auto.
Qed.

Lemma store_events_no_flag (tr : list Event) :
  existsb raises_error (UiStore <$> tr) = false /\
  existsb sets_state (UiStore <$> tr) = false.
Proof. induction tr as [|e tr [IH1 IH2]]; [now split|]. cbn. now rewrite IH1, IH2. Qed.

Lemma find_by_id_first idKey itemId (pre post : list Value) item :
  Forall (fun x => same_id idKey itemId x = Some false) pre ->
  same_id idKey itemId item = Some true ->
  find_by_id idKey itemId (pre ++ item :: post) = Returned item.
Proof.
  intros Hpre Hitem. induction Hpre as [|x pre Hx _ IH]; cbn.
  - now rewrite Hitem.
  - now rewrite Hx.
Qed.

End HookFacts.

(** X16.  The selection the hook applies to a sequence,
    [itemId ? data.find(...) || null : data]: without an [itemId] the
    data is shown as it is; with one, the first element whose [idKey]
    property prints like [itemId] is shown ([null] if that element is
    falsy), [null] when no element matches, and the selection throws when
    the data is not an array -- except in the initializer and in the
    listener, which use [?.] and show [null] for a missing value. *)
Theorem select_item_spec (idKey : string) (itemId : Value) :
  (truthy itemId = false ->
   forall data, select_item idKey itemId data = Returned data /\
                select_item_opt idKey itemId data = Returned data) /\
  (truthy itemId = true ->
   (forall pre item post,
      Forall (fun x => same_id idKey itemId x = Some false) pre ->
      same_id idKey itemId item = Some true ->
      select_item idKey itemId (VArr (pre ++ item :: post)) =
        Returned (if truthy item then item else VNull)) /\
   (forall items,
      Forall (fun x => same_id idKey itemId x = Some false) items ->
      select_item idKey itemId (VArr items) = Returned VNull) /\
   (forall data, isArray data = false ->
      exists e, select_item idKey itemId data = Thrown e) /\
   select_item_opt idKey itemId VUndefined = Returned VNull /\
   select_item_opt idKey itemId VNull = Returned VNull).
Proof.
  split.
  - intros Hid data. unfold select_item_opt, select_item. now rewrite Hid.
  - intros Hid. unfold select_item_opt, select_item. rewrite Hid.
    split; [|split; [|split; [|split]]]; try reflexivity.
    + intros pre item post Hpre Hitem.
      now rewrite (find_by_id_first idKey itemId pre post item Hpre Hitem).
    + intros items Hnone. now rewrite (find_by_id_none idKey itemId items Hnone).
    + intros data Hna. destruct data; try discriminate; eauto.
Qed.

Lemma select_item_spec_witness :
  select_item "id" (VStr "7") Scenario.records =
  Returned (VObj [("id", VNum 7); ("name", VStr "B")]).
Proof.
  refine (proj1 (proj2 (select_item_spec "id" (VStr "7")) eq_refl)
            [VObj [("id", VNum 5); ("name", VStr "A")]]
            (VObj [("id", VNum 7); ("name", VStr "B")]) [] _ _).
  - repeat constructor.
  - reflexivity.
Defined.

(** X17.  [executeMutation] never throws and changes the configuration
    exactly as its call of [fetchData] does.  It calls
    [setIsLoading(true)] and [setIsError(null)] first and
    [setIsLoading(false)] last.  It raises the error flag exactly when
    [fetchData] returned truthy data on which the selection throws -- the
    store then already holds that data, only the component's cell is
    reset to its previous value; without an [itemId] the flag is never
    raised. *)
Theorem executeMutation_error_flag {W} (key : string) (method : Method)
    (itemId urlPath : Value) (keepCache : bool) (idKey : string)
    (state mutationPayload : Value) (now : Z) (c : Config W) :
  let out := executeMutation key method itemId urlPath keepCache idKey
               state mutationPayload now c in
  let fetched := fetchData now key method mutationPayload urlPath keepCache c in
  out.1.2 = fetched.1.2 /\
  (exists v, out.1.1 = Returned v) /\
  (exists mid,
     out.2 = [UiSetIsLoading true; UiSetIsError None] ++ (UiStore <$> fetched.2) ++
             mid ++ [UiSetIsLoading false]) /\
  (existsb raises_error out.2 = true <->
   exists data e,
     fetched.1.1 = Returned data /\ truthy data = true /\
     select_item idKey itemId data = Thrown e) /\
  (truthy itemId = false -> existsb raises_error out.2 = false).
Proof.
  cbn zeta. unfold executeMutation.
  destruct (fetchData_returns now key method mutationPayload urlPath keepCache c)
    as [data Hdata].
  destruct (fetchData now key method mutationPayload urlPath keepCache c)
    as [[r c1] tr]. cbn [fst snd] in *. subst r.
  destruct (store_events_no_flag tr) as [Hno _].
  unfold show_data.
  destruct (truthy data) eqn:Ht.
  - destruct (select_item idKey itemId data) as [shown|e] eqn:Hsel; cbn [fst snd].
    + split; [reflexivity|]. split; [eauto|]. split.
      { exists [UiSetState shown]. reflexivity. }
      split.
      * cbn. rewrite existsb_app, Hno. cbn.
        split; [discriminate|]. intros [d [e [Hd [_ He]]]]. congruence.
      * intros _. cbn. rewrite existsb_app, Hno. reflexivity.
    + split; [reflexivity|]. split; [eauto|]. split.
      { exists [UiSetState state; UiSetIsError (Some e)]. reflexivity. }
      split.
      * cbn. rewrite existsb_app, Hno. cbn. split; [eauto|reflexivity].
      * intros Hid. unfold select_item in Hsel. rewrite Hid in Hsel. discriminate.
  - cbn [fst snd]. split; [reflexivity|]. split; [eauto|]. split.
    { exists []. reflexivity. }
    split.
    + cbn. rewrite existsb_app, Hno. cbn.
      split; [discriminate|]. intros [d [e [Hd [Htd _]]]]. congruence.
    + intros _. cbn. rewrite existsb_app, Hno. reflexivity.
Qed.

Lemma executeMutation_error_flag_witness :
  existsb raises_error
    (executeMutation "items" POST VNull (VStr "") true "id" VUndefined
       (VObj [("name", VStr "C")]) 100
       (Scenario.with_api (Scenario.constant (VStr "created")) 60000)).2 = false.
Proof.
  refine (proj2 (proj2 (proj2 (proj2
            (executeMutation_error_flag "items" POST VNull (VStr "") true "id" VUndefined
               (VObj [("name", VStr "C")]) 100
               (Scenario.with_api (Scenario.constant (VStr "created")) 60000))))) _).
  reflexivity.
Defined.

(** X18.  When [executeMutation] goes to the handler and the handler
    rejects all three attempts, the component is told nothing: the call
    returns [null], the store is unchanged, and between
    [setIsLoading(true)], [setIsError(null)] and [setIsLoading(false)] no
    setter is called -- [isError] stays [null] and [state] keeps its
    value. *)
Theorem executeMutation_failure_is_silent {W} (key : string) (method : Method)
    (itemId urlPath : Value) (keepCache : bool) (idKey : string)
    (state mutationPayload : Value) (now : Z) (c : Config W)
    (h : APIHandler W) (errs : list Exn) :
  served_from_cache (store c) key method now = None ->
  apiHandlers (store c) !! key = Some h ->
  call_outcomes (fetchFunction h) (handler_argument method mutationPayload urlPath)
    (world c) 3 = Thrown <$> errs ->
  let out := executeMutation key method itemId urlPath keepCache idKey
               state mutationPayload now c in
  out.1.1 = Returned VNull /\
  store out.1.2 = store c /\
  out.2 = [UiSetIsLoading true; UiSetIsError None] ++
          (UiStore <$> (fetchData now key method mutationPayload urlPath keepCache c).2) ++
          [UiSetIsLoading false] /\
  existsb raises_error out.2 = false /\
  existsb sets_state out.2 = false.
Proof.
  intros Hs Hh Hout. cbn zeta. unfold executeMutation.
  destruct (fetchData_rejected now key method mutationPayload urlPath keepCache c h errs
              Hs Hh Hout) as [Hres Hst].
  destruct (fetchData now key method mutationPayload urlPath keepCache c)
    as [[r c1] tr]. cbn [fst snd] in *. subst r.
  destruct (store_events_no_flag tr) as [Hno1 Hno2].
  cbn. rewrite !existsb_app, Hno1, Hno2. cbn. auto.
Qed.

Lemma executeMutation_failure_is_silent_witness :
  existsb raises_error
    (executeMutation "items" POST VNull (VStr "") true "id" VUndefined
       (VObj [("name", VStr "C")]) 100 (Scenario.with_api Scenario.down 60000)).2 = false.
Proof.
  pose proof (executeMutation_failure_is_silent "items" POST VNull (VStr "") true "id"
                VUndefined (VObj [("name", VStr "C")]) 100
                (Scenario.with_api Scenario.down 60000)
                (mkAPIHandler Scenario.down 60000)
                [Rejected (VStr "down"); Rejected (VStr "down"); Rejected (VStr "down")]
                eq_refl eq_refl eq_refl) as H.
  cbn zeta in H. exact (proj1 (proj2 (proj2 (proj2 H)))).
Defined.

(** X19.  [refreshData], for a hook on a non-empty key: whatever the
    outcome of the fetch, afterwards [key] has neither cache entry nor
    timestamp (the fetch runs with [keepCache] false), the entries of the
    other keys are as before, and if [key] has a handler it was called,
    first thing after the two setter calls.  For a hook on the empty key
    the whole cache is emptied. *)
Theorem refreshData_drops_cache {W} (key : string) (method : Method)
    (payload itemId urlPath : Value) (idKey : string) (now : Z) (c : Config W) :
  let out := refreshData key method payload itemId urlPath idKey now c in
  (key <> "" ->
     cache (store out.1.2) = delete key (cache (store c)) /\
     cacheExpiration (store out.1.2) = delete key (cacheExpiration (store c)) /\
     forall h, apiHandlers (store c) !! key = Some h ->
       exists a r rest,
         out.2 = [UiSetIsLoading true; UiSetIsError None; UiStore (EvCall key a r)] ++ rest) /\
  (key = "" ->
     cache (store out.1.2) = ∅ /\ cacheExpiration (store out.1.2) = ∅).
Proof.
  cbn zeta. unfold refreshData.
  assert (Hkeep : forall c0 : Config W,
            cache (store (fetchData now key method payload urlPath false c0).1.2) =
              cache (store c0) /\
            cacheExpiration (store (fetchData now key method payload urlPath false c0).1.2) =
              cacheExpiration (store c0)).
  { intros c0.
    destruct (fetchData_store_cases now key method payload urlPath false c0)
      as [->|[data [_ ->]]]; now split. }
  assert (Hconf : forall (c0 : Config W) r c1 tr,
            fetchData now key method payload urlPath false c0 = (r, c1, tr) ->
            forall pre,
            (match r with
             | Returned data =>
                 match show_data itemId idKey data with
                 | Returned shown =>
                     (Returned tt, c1, pre ++ shown ++ [UiSetIsLoading false])
                 | Thrown error =>
                     (Returned tt, c1,
                      pre ++ [UiSetIsError (Some error); UiSetIsLoading false])
                 end
             | Thrown error =>
                 (Returned tt, c1, pre ++ [UiSetIsError (Some error); UiSetIsLoading false])
             end).1.2 = c1 /\
            exists rest,
            (match r with
             | Returned data =>
                 match show_data itemId idKey data with
                 | Returned shown =>
                     (Returned tt, c1, pre ++ shown ++ [UiSetIsLoading false])
                 | Thrown error =>
                     (Returned tt, c1,
                      pre ++ [UiSetIsError (Some error); UiSetIsLoading false])
                 end
             | Thrown error =>
                 (Returned tt, c1, pre ++ [UiSetIsError (Some error); UiSetIsLoading false])
             end).2 = pre ++ rest).
  { intros c0 r c1 tr _ pre. destruct r as [data|e]; [|cbn; eauto].
    destruct (show_data itemId idKey data); cbn; eauto. }
  split.
  - intros Hne. rewrite (clearCache_key_run key c Hne).
    set (c0 := mkConfig _ (world c) (callbacks c)).
    pose proof (Hkeep c0) as [Hca Hex].
    destruct (fetchData now key method payload urlPath false c0) as [[r c1] tr] eqn:Hrun.
    cbn [fst snd] in Hca, Hex.
    destruct (Hconf c0 r c1 tr Hrun
                (([] : list UiEvent) ++ [UiSetIsLoading true; UiSetIsError None] ++
                 (UiStore <$> tr))) as [Hc1 [rest Hrest]].
    cbn [fmap list_fmap] in *. rewrite Hc1, Hca, Hex.
    split; [reflexivity|]. split; [reflexivity|].
    intros h Hh. rewrite Hrest.
    assert (Hcall : exists a r0 tr', tr = EvCall key a r0 :: tr').
    { destruct (fetchData_first_call now key method payload urlPath false c0 h)
        as [tr' Htr]; [| exact Hh |].
      - destruct method; try reflexivity.
        cbn. unfold cache_hit, c0. cbn. now rewrite lookup_delete_eq.
      - rewrite Hrun in Htr. cbn in Htr. eauto. }
    destruct Hcall as [a [r0 [tr' ->]]]. cbn. eauto.
  - intros ->. rewrite (clearCache_all_run (Some "") c) by auto.
    set (c0 := mkConfig _ (world c) (callbacks c)).
    pose proof (Hkeep c0) as [Hca Hex].
    destruct (fetchData now "" method payload urlPath false c0) as [[r c1] tr] eqn:Hrun.
    cbn [fst snd] in Hca, Hex.
    destruct (Hconf c0 r c1 tr Hrun
                (([] : list UiEvent) ++ [UiSetIsLoading true; UiSetIsError None] ++
                 (UiStore <$> tr))) as [Hc1 _].
    cbn [fmap list_fmap] in *. rewrite Hc1, Hca, Hex. split; reflexivity.
Qed.

Lemma refreshData_drops_cache_witness :
  cache (store (refreshData "items" GET VNull VNull (VStr "") "id" 200
                  Session.cached).1.2) = delete "items" (cache (store Session.cached)).
Proof.
  refine (proj1 (proj1 (refreshData_drops_cache "items" GET VNull VNull (VStr "")
                          "id" 200 Session.cached) _)).
  discriminate.
Defined.

(** ** The JavaScript build against the TypeScript one *)

Section BuildFacts.

Context {W : Type}.
Implicit Types (f : M W Value) (c : Config W) (key : string).

Lemma js_retry_loop_lt f retries delay attempts c :
  attempts < retries ->
  JSBuild.retry_loop f retries delay attempts c =
  try_catch f (fun error =>
    if attempts + 1 =? retries then throw error
    else (sleep (delay * 2 ^ (attempts + 1)) ;;
          JSBuild.retry_loop f retries delay (attempts + 1))) c.
Proof.
  intros Hlt. rewrite JSBuild.retry_loop_equation_1.
  destruct (Z_lt_dec attempts retries) as [?|Hn]; [reflexivity | contradiction].
Qed.

Lemma js_retry_loop_ge f retries delay attempts c :
  ~ attempts < retries ->
  JSBuild.retry_loop f retries delay attempts c = (Returned VUndefined, c, []).
Proof.
  intros Hge. rewrite JSBuild.retry_loop_equation_1.
  destruct (Z_lt_dec attempts retries) as [?|Hn]; [contradiction | reflexivity].
Qed.

(** Once inside the loop the two builds never leave it by the bottom. *)
Lemma js_retry_loop_same f retries delay :
  forall a c, a < retries ->
    JSBuild.retry_loop f retries delay a c = retry_loop f retries delay a c.
Proof.
  intros a. remember (Z.to_nat (retries - a)) as n eqn:Hn.
  revert a Hn. induction n as [|n IH]; intros a Hn c Hlt; [lia|].
  rewrite js_retry_loop_lt, retry_loop_lt by exact Hlt. unfold try_catch.
  destruct (f c) as [[[v|e] c1] tr1]; [reflexivity|].
  destruct (Z.eqb_spec (a + 1) retries) as [Heq|Hne]; [reflexivity|].
  unfold bind. destruct (sleep _ c1) as [[[[]|e'] c2] tr2]; [|reflexivity].
  rewrite (IH (a + 1)) by lia. reflexivity.
Qed.

Lemma bind_get_store {A} (K : Store W -> M W A) c :
  bind get_store K c = (let '(r, c2, tr2) := K (store c) c in (r, c2, tr2)).
Proof. reflexivity. Qed.

Lemma bind_getState {A} (K : gmap string Value -> M W A) c :
  bind getState K c = (let '(r, c2, tr2) := K (state (store c)) c in (r, c2, tr2)).
Proof. reflexivity. Qed.

Lemma try_bind_congr {A B} (m1 m2 : M W A) (K : A -> M W B) (H : Exn -> M W B) c :
  m1 c = m2 c ->
  try_catch (bind m1 K) H c = try_catch (bind m2 K) H c.
Proof. intros Heq. unfold try_catch, bind. now rewrite Heq. Qed.

End BuildFacts.

(** X20.  The JavaScript [retryFetch] behaves exactly like the TypeScript
    one as soon as one attempt is allowed ([retries >= 1]); with
    [retries <= 0] neither calls the wrapped function, but the JavaScript
    build returns [undefined] where the TypeScript build throws. *)
Theorem js_retryFetch_agrees {W} (f : M W Value) (retries delay : Z) (c : Config W) :
  (1 <= retries ->
     JSBuild.retryFetch f retries delay c = retryFetch f retries delay c) /\
  (retries <= 0 ->
     JSBuild.retryFetch f retries delay c = (Returned VUndefined, c, []) /\
     retryFetch f retries delay c =
       (Thrown (JsError "Unexpected error in retryFetch"), c, [])).
Proof.
  split.
  - intros Hr. apply js_retry_loop_same. lia.
  - intros Hr. split; [apply js_retry_loop_ge | apply retry_loop_ge]; lia.
Qed.

Lemma js_retryFetch_agrees_witness :
  JSBuild.retryFetch (call_handler "items" (mkAPIHandler Scenario.flaky 60000) VNull)
    3 1000 Scenario.fresh =
  retryFetch (call_handler "items" (mkAPIHandler Scenario.flaky 60000) VNull)
    3 1000 Scenario.fresh.
Proof.
  refine (proj1 (js_retryFetch_agrees _ 3 1000 Scenario.fresh) _). lia.
Defined.

(** X21.  The JavaScript [fetchData] returns the same value, leaves the
    same configuration and produces the same events as the TypeScript one
    whenever the method is not [DELETE], the timestamp of [key] is not 0
    and a key with a timestamp has a handler (as in every reachable
    configuration).  On a [DELETE] of a registered key it calls the
    handler with the URL path, not with the payload. *)
Theorem js_fetchData_agrees {W} (c : Config W) (now : Z) (key : string)
    (method : Method) (payload urlPath : Value) (keepCache : bool) :
  (method <> DELETE ->
   cacheExpiration (store c) !! key <> Some 0 ->
   (is_Some (cacheExpiration (store c) !! key) ->
    is_Some (apiHandlers (store c) !! key)) ->
   JSBuild.fetchData now key method payload urlPath keepCache c =
   fetchData now key method payload urlPath keepCache c) /\
  (forall h,
     method = DELETE ->
     apiHandlers (store c) !! key = Some h ->
     exists tr,
       (JSBuild.fetchData now key method payload urlPath keepCache c).2 =
       EvCall key urlPath (fetchFunction h urlPath (world c)).1 :: tr).
Proof.
  split.
  - intros Hm Ht0 Hreg.
    assert (Hserved : JSBuild.served_from_cache (store c) key method now =
                      served_from_cache (store c) key method now).
    { destruct method; try reflexivity. cbn.
      unfold JSBuild.cache_hit, cache_hit.
      destruct (cache (store c) !! key) as [v|]; [|reflexivity].
      destruct (cacheExpiration (store c) !! key) as [t|] eqn:Ht; [|reflexivity].
      destruct (Hreg ltac:(eauto)) as [h Hh]. rewrite Hh.
      cbn [fmap option_fmap option_map]. rewrite or_zero_Some.
      destruct (Z.eqb_spec t 0) as [->|_]; [congruence | reflexivity]. }
    assert (Harg : JSBuild.handler_argument method payload urlPath =
                   handler_argument method payload urlPath).
    { destruct method; try reflexivity. contradiction. }
    unfold JSBuild.fetchData, fetchData. rewrite !bind_get_store.
    rewrite Hserved, Harg.
    destruct (served_from_cache (store c) key method now); [reflexivity|].
    destruct (apiHandlers (store c) !! key) as [h|]; [|reflexivity].
    rewrite (try_bind_congr _
               (retryFetch (call_handler key h (handler_argument method payload urlPath))
                  3 1000))
      by (apply js_retry_loop_same; lia).
    reflexivity.
  - intros h -> Hh.
    unfold JSBuild.fetchData. rewrite bind_get_store.
    cbn [JSBuild.served_from_cache JSBuild.handler_argument]. rewrite Hh.
    rewrite (try_bind_congr _ (retryFetch (call_handler key h urlPath) 3 1000))
      by (apply js_retry_loop_same; lia).
    unfold try_catch. unfold bind at 1. unfold retryFetch.
    destruct (retry_loop_first_call key h urlPath 3 1000 0 c) as [tr Htr]; [lia|].
    destruct (retry_loop _ 3 1000 0 c) as [[res c2] tr2]. cbn in Htr. subst tr2.
    destruct res as [data|e].
    + match goal with |- context [match ?k c2 with _ => _ end] =>
        destruct (k c2) as [[[r|e] c3] tr3] end; cbn; eauto.
    + cbn. eauto.
Qed.

Lemma js_fetchData_agrees_witness :
  JSBuild.fetchData 200 "items" GET VNull (VStr "") true Session.cached =
  fetchData 200 "items" GET VNull (VStr "") true Session.cached.
Proof.
  refine (proj1 (js_fetchData_agrees Session.cached 200 "items" GET VNull (VStr "") true)
            _ _ _).
  - discriminate.
  - vm_compute. discriminate.
  - intros _. vm_compute. eauto.
Defined.

(** X22.  The JavaScript [deleteItem] does what the TypeScript one does
    when the state at [key] is an array, [null], [undefined] or missing.
    On any other value (a string, a number, a record) with a truthy id it
    throws a [TypeError] and changes nothing, where the TypeScript build
    replaces the value by the empty array. *)
Theorem js_deleteItem_agrees {W} (c : Config W) (key idKey : string) (id : Value) :
  let current := default VUndefined (state (store c) !! key) in
  (isArray current = true \/ current = VUndefined \/ current = VNull ->
   JSBuild.deleteItem key idKey id c = deleteItem key idKey id c) /\
  (truthy id = true ->
   isArray current = false -> current <> VUndefined -> current <> VNull ->
   JSBuild.deleteItem key idKey id c =
     (Thrown (TypeError "store.getState()[key]?.filter is not a function"), c, []) /\
   state (store (deleteItem key idKey id c).1.2) !! key = Some (VArr [])).
Proof.
  cbn zeta. split.
  - intros Hcur. unfold JSBuild.deleteItem, deleteItem.
    destruct (truthy id); cbn [negb]; [|reflexivity].
    rewrite !bind_getState.
    destruct (default VUndefined (state (store c) !! key));
      try reflexivity; destruct Hcur as [Hc|[Hc|Hc]]; discriminate.
  - intros Hid Hna Hu Hn. split.
    + unfold JSBuild.deleteItem. rewrite Hid. cbn [negb]. rewrite bind_getState.
      destruct (default VUndefined (state (store c) !! key));
        try contradiction; try discriminate; reflexivity.
    + rewrite (deleteItem_run_other key idKey id c Hid Hna), setState_run. cbn.
      apply lookup_union_Some_l, lookup_singleton_eq.
Qed.

Lemma js_deleteItem_agrees_witness :
  JSBuild.deleteItem "items" "id" (VNum 5) Scenario.local =
  deleteItem "items" "id" (VNum 5) Scenario.local.
Proof.
  refine (proj1 (js_deleteItem_agrees Scenario.local "items" "id" (VNum 5)) _).
  left. reflexivity.
Defined.
